(** * Rank score calculator: a shallow embedding of [src/app.js]

    The development follows the JavaScript source function by function.

    - JavaScript numbers are IEEE 754 binary64 values.  They are modelled by
      [spec_float] with precision 53 and maximal exponent 1024, and the
      arithmetic is the correctly rounded arithmetic of [SpecFloat].
    - Array positions and loop counters ([i], [empty], [roundCount], the
      suffix counter of sheet names, the opponent index) hold integers in
      the source; they are modelled by [nat], [N] and [Z].  [roundCount] is
      a natural number, as the loop over the rounds reads it.
    - Strings are sequences of code units; the model uses [string], that is
      code units in the range 0..255.
    - The two globals [roundCount] and [fullMark] are section variables. *)

From Stdlib Require Import ZArith NArith List String Ascii Bool Lia SpecFloat.
From stdpp Require Import base gmap strings.

Local Open Scope string_scope.
Local Open Scope Z_scope.

(** ** JavaScript numbers *)

Module JsNumber.

Definition number : Type := spec_float.

Definition prec : Z := 53.
Definition emax : Z := 1024.

Definition NaN : number := S754_nan.
Definition Infinity (neg : bool) : number := S754_infinity neg.

(** [of_Z z] is the double nearest to the integer [z] (ties to even);
    it is [z] itself whenever [|z| <= 2^53]. *)
Definition of_Z (z : Z) : number := binary_normalize prec emax z 0 false.

(** The double nearest to [(-1)^neg * m * 10^e], the value of a decimal
    literal with digits [m] and decimal exponent [e]. *)
Definition of_decimal (neg : bool) (m : N) (e : Z) : number :=
  match m with
  | N0 => S754_zero neg
  | Npos p =>
      match e with
      | Zneg k =>
          SFdiv prec emax (S754_finite neg p 0)
                          (S754_finite false (Pos.pow 10 k) 0)
      | _ => binary_normalize prec emax
               (cond_Zopp neg (Zpos p * 10 ^ e)) 0 false
      end
  end.

Definition add : number -> number -> number := SFadd prec emax.
Definition sub : number -> number -> number := SFsub prec emax.
Definition mul : number -> number -> number := SFmul prec emax.
Definition div : number -> number -> number := SFdiv prec emax.

(** [x <= y], [x < y], [x >= y], [x > y]: all false on [NaN]. *)
Definition le (x y : number) : bool := SFleb x y.
Definition lt (x y : number) : bool := SFltb x y.
Definition ge (x y : number) : bool := SFleb y x.

(** [Number.isFinite] *)
Definition isFinite (x : number) : bool :=
  match x with
  | S754_zero _ | S754_finite _ _ _ => true
  | S754_infinity _ | S754_nan => false
  end.

(** The integer part (towards zero) of a finite double; this is its exact
    value when the double holds an integer. *)
Definition to_Z (x : number) : Z :=
  match x with
  | S754_finite s m e =>
      match e with
      | Zneg k => cond_Zopp s (Zpos m / 2 ^ Zpos k)
      | _ => cond_Zopp s (Zpos m * 2 ^ e)
      end
  | _ => 0
  end.

(** [Math.abs] *)
Definition Math_abs (x : number) : number := SFabs x.

(** [Math.ceil]: the least integer not below [x]; a result in (-1, 0]
    reached from a negative [x] is [-0]. *)
Definition Math_ceil (x : number) : number :=
  match x with
  | S754_finite s m (Zneg k) =>
      let c := - ((- cond_Zopp s (Zpos m)) / 2 ^ Zpos k) in
      if c =? 0 then S754_zero s else of_Z c
  | _ => x
  end.

(** [Math.round]: the integer nearest to [x], ties towards +Infinity. *)
Definition Math_round (x : number) : number :=
  match x with
  | S754_finite s m (Zneg k) =>
      let r := (2 * cond_Zopp s (Zpos m) + 2 ^ Zpos k) / 2 ^ (Zpos k + 1) in
      if r =? 0 then S754_zero s else of_Z r
  | _ => x
  end.

End JsNumber.

(** ** JavaScript strings and the conversions between strings and numbers *)

Module JsString.
Import JsNumber.

Definition code (c : ascii) : N := N_of_ascii c.

(** White space and line terminators among the code units 0..255. *)
Definition is_ws (c : ascii) : bool :=
  let n := code c in
  (((9 <=? n) && (n <=? 13)) || (n =? 32) || (n =? 160))%N.

Definition is_digit (c : ascii) : bool :=
  let n := code c in ((48 <=? n) && (n <=? 57))%N.

Definition digit_val (c : ascii) : N := (code c - 48)%N.
Definition digit_char (d : N) : ascii := ascii_of_N (48 + d).

Fixpoint trim_start (s : string) : string :=
  match s with
  | String c r => if is_ws c then trim_start r else s
  | EmptyString => s
  end.

Fixpoint trim_end (s : string) : string :=
  match s with
  | String c r =>
      match trim_end r with
      | EmptyString => if is_ws c then EmptyString else String c EmptyString
      | r' => String c r'
      end
  | EmptyString => s
  end.

(** [s.trim()] *)
Definition trim (s : string) : string := trim_end (trim_start s).

(** [s.slice(0, n)] for [n >= 0] *)
Fixpoint slice_to (n : nat) (s : string) : string :=
  match n, s with
  | S n', String c r => String c (slice_to n' r)
  | _, _ => EmptyString
  end.

(** [s.slice(1)] *)
Definition slice_1 (s : string) : string :=
  match s with
  | String _ r => r
  | EmptyString => s
  end.

(** [ToString] of a value that is a string or [undefined]. *)
Definition ToString (v : option string) : string :=
  match v with
  | Some s => s
  | None => "undefined"
  end.

(** *** Decimal digits *)

Fixpoint digits_of (fuel : nat) (n : N) (acc : string) : string :=
  let acc' := String (digit_char (n mod 10)) acc in
  match fuel with
  | O => acc'
  | S f => if (n / 10 =? 0)%N then acc' else digits_of f (n / 10) acc'
  end.

(** The decimal digits of a natural number, as in [`${i}`]. *)
Definition N_to_string (n : N) : string :=
  digits_of (N.to_nat (N.log2 n)) n EmptyString.

(** Reads the longest run of decimal digits at the head of [s]: the value
    accumulated on top of [acc], the number of digits read (added to
    [cnt]) and the rest of the string. *)
Fixpoint read_digits (s : string) (acc : N) (cnt : nat) : N * nat * string :=
  match s with
  | String c r =>
      if is_digit c
      then read_digits r (acc * 10 + digit_val c)%N (S cnt)
      else (acc, cnt, s)
  | EmptyString => (acc, cnt, s)
  end.

(** An optional leading [+] or [-]. *)
Definition read_sign (s : string) : bool * string :=
  match s with
  | String "-" r => (true, r)
  | String "+" r => (false, r)
  | _ => (false, s)
  end.

(** *** [parseInt(v, 10)] *)

(** The sign and the mathematical integer of the digit run, or [None]
    when no digit follows the optional sign. *)
Definition parseInt_math (v : option string) : option (bool * N) :=
  let '(neg, r) := read_sign (trim_start (ToString v)) in
  let '(n, cnt, _) := read_digits r 0%N 0%nat in
  match cnt with
  | O => None
  | S _ => Some (neg, n)
  end.

Definition parseInt (v : option string) : number :=
  match parseInt_math v with
  | None => NaN
  | Some (neg, N0) => S754_zero neg
  | Some (neg, Npos p) => of_Z (cond_Zopp neg (Zpos p))
  end.

(** *** Decimal literals: [parseFloat] and [Number(string)] *)

Definition read_exponent (m : N) (e0 : Z) (s : string) : N * Z * string :=
  match s with
  | String c r =>
      if (code c =? 101)%N || (code c =? 69)%N then
        let '(neg, r') := read_sign r in
        let '(x, cnt, r'') := read_digits r' 0%N 0%nat in
        match cnt with
        | O => (m, e0, s)
        | S _ => (m, e0 + cond_Zopp neg (Z.of_N x), r'')
        end
      else (m, e0, s)
  | EmptyString => (m, e0, s)
  end.

(** The longest prefix of [s] that is an unsigned decimal literal other
    than [Infinity]: digits [m] and decimal exponent [e] of its value
    [m * 10^e], and the rest of [s]. *)
Definition read_unsigned_decimal (s : string) : option (N * Z * string) :=
  let '(i, ci, r1) := read_digits s 0%N 0%nat in
  match r1 with
  | String "." r2 =>
      let '(m, cf, r3) := read_digits r2 i 0%nat in
      match (ci + cf)%nat with
      | O => None
      | S _ => Some (read_exponent m (- Z.of_nat cf) r3)
      end
  | _ =>
      match ci with
      | O => None
      | S _ => Some (read_exponent i 0 r1)
      end
  end.

Definition read_decimal (s : string) : option (number * string) :=
  let '(neg, r) := read_sign s in
  if String.prefix "Infinity" r
  then Some (Infinity neg, String.substring 8 (String.length r - 8) r)
  else
    match read_unsigned_decimal r with
    | Some (m, e, rest) => Some (of_decimal neg m e, rest)
    | None => None
    end.

Definition parseFloat (v : option string) : number :=
  match read_decimal (trim_start (ToString v)) with
  | Some (x, _) => x
  | None => NaN
  end.

(** [Number(s)] for a string [s].  Only decimal literals are read; the
    [0x], [0o] and [0b] forms never occur in the output of [toFixed],
    which is the only string this program converts. *)
Definition StringToNumber (s : string) : number :=
  match trim s with
  | EmptyString => S754_zero false
  | t =>
      match read_decimal t with
      | Some (x, EmptyString) => x
      | _ => NaN
      end
  end.

(** *** [x.toFixed(1)] *)

(** The integer nearest to ten times the magnitude of a finite double
    [m * 2^e]; of two nearest integers the larger one. *)
Definition tenths (m : positive) (e : Z) : N :=
  match e with
  | Zneg k => ((20 * Npos m + 2 ^ Npos k) / 2 ^ (Npos k + 1))%N
  | _ => (10 * Npos m * 2 ^ Z.to_N e)%N
  end.

(** Magnitudes of 10^21 and more, which JavaScript prints in exponent
    notation, are printed here in plain decimal notation as well. *)
Definition toFixed1 (x : number) : string :=
  match x with
  | S754_nan => "NaN"
  | S754_infinity false => "Infinity"
  | S754_infinity true => "-Infinity"
  | S754_zero _ => "0.0"
  | S754_finite s m e =>
      let n := tenths m e in
      (if s then "-" else "") +:+
      N_to_string (n / 10) +:+ "." +:+ N_to_string (n mod 10)
  end.

End JsString.

Import JsNumber JsString.

(** ** Sheet names *)

(** [/\.[^/.]+$/]: a dot followed, up to the end of the string, by one or
    more characters that are neither [/] nor [.]. *)
Fixpoint is_extension_tail (s : string) : bool :=
  match s with
  | String c r =>
      negb (Ascii.eqb c "/") && negb (Ascii.eqb c ".") &&
      match r with
      | EmptyString => true
      | _ => is_extension_tail r
      end
  | EmptyString => false
  end.

(** [s.replace(/\.[^/.]+$/, "")]: the leftmost match is removed. *)
Fixpoint remove_extension (s : string) : string :=
  match s with
  | String c r =>
      if Ascii.eqb c "." && is_extension_tail r
      then EmptyString
      else String c (remove_extension r)
  | EmptyString => s
  end.

Definition is_forbidden (c : ascii) : bool :=
  existsb (Ascii.eqb c) [":"; "\"; "/"; "?"; "*"; "["; "]"]%char.

(** [s.replace(/[:\\/?*\[\]]/g, "_")] *)
Fixpoint replace_forbidden (s : string) : string :=
  match s with
  | String c r =>
      String (if is_forbidden c then "_"%char else c) (replace_forbidden r)
  | EmptyString => s
  end.

Definition sanitizeSheetName (name : string) : string :=
  let cleaned := trim (replace_forbidden (remove_extension name)) in
  slice_to 31 (match cleaned with EmptyString => "Group" | _ => cleaned end).

(** [`_${i}`] *)
Definition suffix (i : N) : string := "_" +:+ N_to_string i.

(** [`${trimmedBase}${suffix}`] with
    [trimmedBase = baseName.slice(0, Math.max(0, 31 - suffix.length))];
    the subtraction on [nat] is the [Math.max(0, _)]. *)
Definition candidate (baseName : string) (i : N) : string :=
  slice_to (31 - String.length (suffix i)) baseName +:+ suffix i.

(** The [while (true)] loop of [makeUniqueSheetName], from counter [i].
    [existing] is the [Set] of names in use; the result is the returned
    name together with the set after [existing.add]. *)
Fixpoint makeUnique_loop (fuel : nat) (baseName : string)
    (existing : gset string) (i : N) : option (string * gset string) :=
  match fuel with
  | O => None
  | S fuel' =>
      let c := candidate baseName i in
      if bool_decide (c ∈ existing)
      then makeUnique_loop fuel' baseName existing (i + 1)%N
      else Some (c, {[ c ]} ∪ existing)
  end.

(** The loop meets an unused candidate within [size existing + 1] turns
    (lemma [candidates_not_all_used]), which is the fuel it gets. *)
Definition makeUniqueSheetName (baseName : string) (existing : gset string)
    : option (string * gset string) :=
  let name := slice_to 31 baseName in
  if bool_decide (name ∈ existing)
  then makeUnique_loop (S (size existing)) baseName existing 2%N
  else Some (name, {[ name ]} ∪ existing).

(** ** Opponent tokens *)

Record opponent_token : Type := mkToken {
  opponentId : option Z;
  display : string
}.

(** [c.toUpperCase()] on the letters [a]..[z]; no other code unit has an
    upper case among [W], [D] and [L]. *)
Definition toUpperCase (c : ascii) : ascii :=
  let n := code c in
  if ((97 <=? n) && (n <=? 122))%N then ascii_of_N (n - 32) else c.

Definition is_marker (c : ascii) : bool :=
  let first := toUpperCase c in
  Ascii.eqb first "W" || Ascii.eqb first "D" || Ascii.eqb first "L".

(** The token is a string or [undefined] (a row shorter than the round
    index).  A finite [opponentId] always holds an integer, kept here as
    that integer. *)
Definition parseOpponentToken (token : option string) : opponent_token :=
  match token with
  | None => mkToken None ""
  | Some t =>
      let raw := trim t in
      match raw with
      | EmptyString => mkToken None ""
      | String c _ =>
          let maybeNumber := if is_marker c then slice_1 raw else raw in
          let opponentId := parseInt (Some maybeNumber) in
          mkToken (if isFinite opponentId then Some (to_Z opponentId) else None)
                  raw
      end
  end.

(** ** Expected score and rating engine *)

(** What [getExpectedScore] returns: a number, or the string made by
    [toFixed]. *)
Inductive value : Type :=
| VNumber (x : number)
| VString (s : string).

(** [Number(v)] *)
Definition ToNumber (v : value) : number :=
  match v with
  | VNumber x => x
  | VString s => StringToNumber s
  end.

Definition zero : number := of_Z 0.

(** The literal [0.hh], given by its hundredths. *)
Definition lit (hundredths : N) : number := of_decimal false hundredths (-2).

(** [diff >= 0 ? 0.hi : 0.lo] *)
Definition by_sign (diff : number) (hi lo : N) : number :=
  if ge diff zero then lit hi else lit lo.

Definition player_row : Type := list string.

Record computed_row : Type := mkRow {
  seq_no : nat;
  name : option string;
  rating : number;
  kFactor : number;
  roundTokens : list string;
  totalScore : number;
  avgOpponentRating : number;
  expectedScore : string;
  ratingChange : string;
  finalRating : number
}.

Section Engine.

(** The globals of [app.js]. *)
Variable roundCount : nat.
Variable fullMark : number.

Definition breakpoints (diff : number) : list (Z * Z * number) :=
  [ (0, 3, lit 50);
    (4, 10, by_sign diff 51 49);
    (11, 17, by_sign diff 52 48);
    (18, 25, by_sign diff 53 47);
    (26, 32, by_sign diff 54 46);
    (33, 39, by_sign diff 55 45);
    (40, 46, by_sign diff 56 44);
    (47, 53, by_sign diff 57 43);
    (54, 61, by_sign diff 58 42);
    (62, 68, by_sign diff 59 41);
    (69, 76, by_sign diff 60 40);
    (77, 83, by_sign diff 61 39);
    (84, 91, by_sign diff 62 38);
    (92, 98, by_sign diff 63 37);
    (99, 106, by_sign diff 64 36);
    (107, 113, by_sign diff 65 35);
    (114, 121, by_sign diff 66 34);
    (122, 129, by_sign diff 67 33);
    (130, 137, by_sign diff 68 32);
    (138, 145, by_sign diff 69 31);
    (146, 153, by_sign diff 70 30);
    (154, 162, by_sign diff 71 29);
    (163, 170, by_sign diff 72 28);
    (171, 179, by_sign diff 73 27);
    (180, 188, by_sign diff 74 26);
    (189, 197, by_sign diff 75 25);
    (198, 206, by_sign diff 76 24);
    (207, 215, by_sign diff 77 23);
    (216, 225, by_sign diff 78 22);
    (226, 235, by_sign diff 79 21);
    (236, 245, by_sign diff 80 20);
    (246, 256, by_sign diff 81 19);
    (257, 267, by_sign diff 82 18);
    (268, 278, by_sign diff 83 17);
    (279, 290, by_sign diff 84 16);
    (291, 302, by_sign diff 85 15);
    (303, 315, by_sign diff 86 14);
    (316, 328, by_sign diff 87 13);
    (329, 344, by_sign diff 88 12);
    (345, 357, by_sign diff 89 11);
    (358, 374, by_sign diff 90 10);
    (375, 391, by_sign diff 91 9);
    (392, 411, by_sign diff 92 8);
    (412, 432, by_sign diff 93 7);
    (433, 456, by_sign diff 94 6);
    (457, 484, by_sign diff 95 5);
    (485, 517, by_sign diff 96 4);
    (518, 559, by_sign diff 97 3);
    (560, 619, by_sign diff 98 2);
    (620, 734, by_sign diff 99 1) ].

(** [absDiff >= min && absDiff <= max] *)
Definition in_band (absDiff : number) (b : Z * Z * number) : bool :=
  let '(min, max, _) := b in
  ge absDiff (of_Z min) && le absDiff (of_Z max).

Definition getExpectedScore (playerMark oppMark : number) : value :=
  let diff := sub playerMark oppMark in
  let absDiff := Math_abs diff in
  match find (in_band absDiff) (breakpoints diff) with
  | Some (_, _, val) => VNumber (mul fullMark val)
  | None => if ge diff zero then VString (toFixed1 fullMark) else VNumber zero
  end.

(** [opponentId ? opponentId - 1 : -1].  The subtraction is the one of
    integers; the source subtracts doubles, which differs only above 2^53,
    far beyond the length of any array. *)
Definition opponentIndex (opponentId : option Z) : Z :=
  match opponentId with
  | Some z => if z =? 0 then -1 else z - 1
  | None => -1
  end.

(** [opponentIndex >= 0 && players[opponentIndex]]: the row at that
    position when there is one. *)
Definition opponent_row (players : list player_row) (idx : Z)
    : option player_row :=
  if 0 <=? idx then players !! Z.to_nat idx else None.

(** One turn of the loop over the rounds, on the pair [(total, empty)]. *)
Definition round_step (players : list player_row) (player : player_row)
    (st : number * nat) (i : nat) : number * nat :=
  let '(total, empty) := st in
  let tok := parseOpponentToken (player !! (3 + i)%nat) in
  match opponent_row players (opponentIndex (opponentId tok)) with
  | Some opp => (add total (parseInt (opp !! 1%nat)), empty)
  | None => (total, S empty)
  end.

Definition opponent_totals (players : list player_row) (player : player_row)
    : number * nat :=
  fold_left (round_step players player) (seq 0 roundCount) (zero, 0%nat).

(** [divisor > 0 ? Math.ceil(total / divisor) : 0] with
    [divisor = roundCount - empty] *)
Definition avgOpponent (total : number) (empty : nat) : number :=
  let divisor := Z.of_nat roundCount - Z.of_nat empty in
  if 0 <? divisor then Math_ceil (div total (of_Z divisor)) else zero.

Definition expected_of (rank avg : number) : string :=
  toFixed1 (ToNumber (getExpectedScore rank avg)).

Definition change_of (score : number) (expected : string) (k : number)
    : number :=
  mul (sub score (parseFloat (Some expected))) k.

(** The callback of [players.map] in [calculateGroup]. *)
Definition compute_row (players : list player_row) (index : nat)
    (player : player_row) : computed_row :=
  let rank := parseInt (player !! 1%nat) in
  let k := parseInt (player !! 2%nat) in
  let score := parseFloat (player !! (3 + roundCount)%nat) in
  let '(total, empty) := opponent_totals players player in
  let avg := avgOpponent total empty in
  let expected := expected_of rank avg in
  let change := change_of score expected k in
  let finalRank := Math_round (add rank change) in
  mkRow (index + 1) (player !! 0%nat) rank k
        (List.firstn roundCount (List.skipn 3 player))
        score avg expected (toFixed1 change) finalRank.

(** The rows [updatedPlayers] of [calculateGroup]; the sheet layout built
    around them afterwards is not modelled. *)
Definition calculateGroup (players : list player_row) : list computed_row :=
  imap (compute_row players) players.

End Engine.

(** ** Auxiliary definitions used in the statements *)

(** The integer [a] lies within the bounds of band [b]. *)
Definition covers (a : Z) (b : Z * Z * number) : Prop :=
  b.1.1 <= a <= b.1.2.


(** The bands of [l] follow one another without gap or overlap, from
    [prev + 1] up to [final]. *)
Fixpoint tiles (prev : Z) (l : list (Z * Z * number)) (final : Z) : bool :=
  match l with
  | [] => prev =? final
  | b :: r => (b.1.1 =? prev + 1) && (b.1.1 <=? b.1.2) && tiles b.1.2 r final
  end.

#[global] Instance number_eq_dec : EqDecision number.
Proof. solve_decision. Defined.

(** Two bands with the same bounds whose fractions add up to exactly 1. *)
Definition complementary (b1 b2 : Z * Z * number) : bool :=
  bool_decide (b1.1 = b2.1) && bool_decide (add b1.2 b2.2 = of_Z 1).

(** The opponent reference [oid] names no row of [players]: it is [null],
    it is 0, or [oid - 1] lies outside [0, players.length). *)
Definition unresolved (players : list player_row) (oid : option Z) : Prop :=
  oid = None \/ oid = Some 0 \/
  exists z, oid = Some z /\ ~ (0 <= z - 1 < Z.of_nat (length players)).

(** Example groups. *)
Definition group_self : list player_row :=
  [ ["A"; "1500"; "20"; "1"; ""; ""; ""; "2"];
    ["B"; "1600"; "20"; "1"; ""; ""; ""; "2"] ].

Definition group_A : list player_row :=
  [ ["A"; "1500"; "20"; "2"; "W3"; "D4"; "D5"; "2.5"];
    ["B"; "1500"; "20"; "L1"; ""; ""; ""; "0"];
    ["C"; "1500"; "20"; "L1"; ""; ""; ""; "0"];
    ["D"; "1500"; "20"; "D1"; ""; ""; ""; "0.5"];
    ["E"; "1500"; "20"; "D1"; ""; ""; ""; "0.5"] ].

Definition group_ceil : list player_row :=
  [ ["A"; "1500"; "20"; "2"; "3"; "4"; "0"; "2"];
    ["B"; "1500"; "20"; "1"; ""; ""; "bye"; "1"];
    ["C"; "1500"; "20"; "1"; ""; ""; "9"; "1"];
    ["D"; "1501"; "20"; "1"; ""; ""; ""; "1"] ].

(** Digit runs, for the statements about tokens. *)
Fixpoint all_digits (s : string) : bool :=
  match s with
  | String c r => is_digit c && all_digits r
  | EmptyString => true
  end.

Fixpoint decimal_value_from (acc : N) (s : string) : N :=
  match s with
  | String c r => decimal_value_from (acc * 10 + digit_val c)%N r
  | EmptyString => acc
  end.

(** The integer written by the digits of [s]. *)
Definition decimal_value (s : string) : N := decimal_value_from 0 s.

Definition starts_with_digit (s : string) : bool :=
  match s with
  | String c _ => is_digit c
  | EmptyString => false
  end.

(** The token [1000...0x]: a one, 309 zeros and a trailing [x]. *)
Definition overflow_token : string :=
  String "1" (string_of_list_ascii (repeat "0"%char 309)) +:+ "x".

(** The part of [s] after its last underscore. *)
Fixpoint after_underscore (s : string) : option string :=
  match s with
  | String c r =>
      match after_underscore r with
      | Some t => Some t
      | None => if Ascii.eqb c "_" then Some r else None
      end
  | EmptyString => None
  end.

(** The sheet names that the loop over the groups in [calculate] hands
    out, one per base name, threading the set of used names. *)
Fixpoint assignSheetNames (bases : list string) (used : gset string)
    : list (option string) :=
  match bases with
  | [] => []
  | b :: r =>
      match makeUniqueSheetName b used with
      | Some (n, used') => Some n :: assignSheetNames r used'
      | None => [None]
      end
  end.

(** ** Reading the player rows of a text file *)

Definition char_cr : ascii := ascii_of_N 13.
Definition char_lf : ascii := ascii_of_N 10.
Definition char_comma : ascii := ","%char.

(** [s.split(sep)] for a separator of one character. *)
Fixpoint split_on (sep : ascii) (s : string) : list string :=
  match s with
  | EmptyString => [EmptyString]
  | String c r =>
      if Ascii.eqb c sep then EmptyString :: split_on sep r
      else
        match split_on sep r with
        | h :: t => String c h :: t
        | [] => [String c EmptyString]
        end
  end.

(** [s.replace(/x/g, "")] for one character [x]. *)
Fixpoint remove_char (x : ascii) (s : string) : string :=
  match s with
  | String c r =>
      if Ascii.eqb c x then remove_char x r else String c (remove_char x r)
  | EmptyString => s
  end.

(** [Boolean(s)] for a string. *)
Definition nonempty (s : string) : bool :=
  match s with
  | EmptyString => false
  | _ => true
  end.

(** [arr.join(sep)] *)
Fixpoint join (sep : string) (l : list string) : string :=
  match l with
  | [] => EmptyString
  | [a] => a
  | a :: r => a +:+ sep +:+ join sep r
  end.

Definition isValidPlayerRow (row : player_row) : bool :=
  negb (length row <? 4)%nat &&
  isFinite (parseInt (row !! 1%nat)) && isFinite (parseInt (row !! 2%nat)).

Definition parsePlayersFromText (text : string) : list player_row :=
  let lines :=
    List.filter nonempty
      (map trim (split_on char_lf (remove_char char_cr text))) in
  List.filter isValidPlayerRow
    (map (fun line => map trim (split_on char_comma line)) lines).

(** ** [Number::toString] *)

(** [n] zeros. *)
Definition zeros (n : nat) : string := string_of_list_ascii (repeat "0"%char n).

(** [s.slice(n)] *)
Fixpoint slice_from (n : nat) (s : string) : string :=
  match n, s with
  | S n', String _ r => slice_from n' r
  | _, _ => s
  end.

Fixpoint strip_zeros_end (s : string) : string :=
  match s with
  | String c r =>
      match strip_zeros_end r with
      | EmptyString => if Ascii.eqb c "0" then EmptyString else String c EmptyString
      | r' => String c r'
      end
  | EmptyString => s
  end.

(** The least [j >= j0] with [d <= m * 10^j], searched over [fuel] steps. *)
Fixpoint first_scale (fuel : nat) (m d : N) (j : N) : N :=
  match fuel with
  | O => j
  | S f => if (d <=? m * 10 ^ j)%N then j else first_scale f m d (j + 1)%N
  end.

(** The decimal exponent [n0] of the positive value [m * 2^e]:
    [10^(n0 - 1) <= m * 2^e < 10^n0]. *)
Definition decimal_exponent (m : positive) (e : Z) : Z :=
  match e with
  | Zneg k =>
      let d := (2 ^ Npos k)%N in
      if (d <=? Npos m)%N
      then Z.of_nat (String.length (N_to_string (Npos m / d)))
      else 1 - Z.of_N (first_scale (S (Pos.to_nat k)) (Npos m) d 1)
  | _ => Z.of_nat (String.length (N_to_string (Npos m * 2 ^ Z.to_N e)))
  end.

(** The value [m * 2^e * 10^p] as a fraction. *)
Definition scaled (m : positive) (e p : Z) : N * N :=
  let num := match e with Zneg _ => Npos m | _ => (Npos m * 2 ^ Z.to_N e)%N end in
  let den := match e with Zneg k => (2 ^ Npos k)%N | _ => 1%N end in
  match p with
  | Zneg q => (num, (den * 10 ^ Npos q)%N)
  | _ => ((num * 10 ^ Z.to_N p)%N, den)
  end.

(** The integer [s] of [k] digits nearest to [x * 10^(k - n0)] for which
    [s * 10^(n0 - k)] is read back as [x], when there is one. *)
Definition digits_candidate (x : number) (m : positive) (e n0 : Z) (k : Z)
    : option N :=
  let p := k - n0 in
  let '(num, den) := scaled m e p in
  let lo := (num / den)%N in
  let r := (num mod den)%N in
  let ok (s : N) := bool_decide (of_decimal false s (- p) = x) in
  if (r =? 0)%N then (if ok lo then Some lo else None)
  else
    let hi := (lo + 1)%N in
    match ok lo, ok hi with
    | true, false => Some lo
    | false, true => Some hi
    | false, false => None
    | true, true =>
        match (2 * r ?= den)%N with
        | Lt => Some lo
        | Gt => Some hi
        | Eq => if N.even lo then Some lo else Some hi
        end
    end.

Fixpoint shortest_digits (fuel : nat) (x : number) (m : positive) (e n0 : Z)
    (k : Z) : N * Z :=
  match digits_candidate x m e n0 k with
  | Some s => (s, k)
  | None =>
      match fuel with
      | O => ((fst (scaled m e (k - n0)) / snd (scaled m e (k - n0)))%N, k)
      | S f => shortest_digits f x m e n0 (k + 1)
      end
  end.

(** The digits and the position [n] of the decimal point of the shortest
    decimal that reads back as the positive double [m * 2^e]. *)
Definition shortest_decimal (m : positive) (e : Z) : string * Z :=
  let x := S754_finite false m e in
  let n0 := decimal_exponent m e in
  let '(s, k) := shortest_digits 16 x m e n0 1 in
  let d0 := N_to_string s in
  (strip_zeros_end d0, Z.of_nat (String.length d0) + (n0 - k)).

Definition format_decimal (d : string) (n : Z) : string :=
  let k := Z.of_nat (String.length d) in
  if (k <=? n) && (n <=? 21) then d +:+ zeros (Z.to_nat (n - k))
  else if (0 <? n) && (n <=? 21)
  then slice_to (Z.to_nat n) d +:+ "." +:+ slice_from (Z.to_nat n) d
  else if (-6 <? n) && (n <=? 0) then "0." +:+ zeros (Z.to_nat (- n)) +:+ d
  else
    let e := n - 1 in
    let mantissa :=
      if k =? 1 then d else slice_to 1 d +:+ "." +:+ slice_from 1 d in
    mantissa +:+ "e" +:+ (if e <? 0 then "-" else "+") +:+
    N_to_string (Z.to_N (Z.abs e)).

(** [String(x)] for a number, as in [`${x}`]. *)
Definition Number_toString (x : number) : string :=
  match x with
  | S754_nan => "NaN"
  | S754_zero _ => "0"
  | S754_infinity s => (if s then "-" else "") +:+ "Infinity"
  | S754_finite s m e =>
      let '(d, n) := shortest_decimal m e in
      (if s then "-" else "") +:+ format_decimal d n
  end.

(** ** The sheet and the update lines of a group *)

(** A cell of a computed row. *)
Inductive cell : Type :=
| CNumber (x : number)
| CString (s : string)
| CUndefined.

(** [String(c)] *)
Definition cell_toString (c : cell) : string :=
  match c with
  | CNumber x => Number_toString x
  | CString s => s
  | CUndefined => "undefined"
  end.

(** The array that the callback of [players.map] returns. *)
Definition row_cells (r : computed_row) : list cell :=
  ([ CNumber (of_Z (Z.of_nat (seq_no r)));
     match name r with Some s => CString s | None => CUndefined end;
     CNumber (rating r);
     CNumber (kFactor r) ]
   ++ map CString (roundTokens r)
   ++ [ CNumber (totalScore r);
        CNumber (avgOpponentRating r);
        CString (expectedScore r);
        CString (ratingChange r);
        CNumber (finalRating r) ])%list.

(** [`${name},${oldRank},${newRank}`] with [name = row[1]],
    [oldRank = row[2]] and [newRank = row[row.length - 1]]. *)
Definition update_line (row : list cell) : string :=
  let field (i : nat) :=
    match row !! i with Some c => cell_toString c | None => "undefined" end in
  field 1%nat +:+ "," +:+ field 2%nat +:+ "," +:+ field (length row - 1)%nat.

(** The texts of the sheet that are written in Chinese; each constructor
    stands for one literal of the source, [L_title] for the title made of
    the sheet title and [L_round i] for the header of round [i]. *)
Inductive label : Type :=
| L_title (sheetTitle : string)
| L_rating
| L_k
| L_2000_up
| L_1549_down
| L_seq
| L_player
| L_round (i : nat)
| L_total
| L_avg
| L_expected
| L_change
| L_final.

Inductive sheet_cell : Type :=
| Data (c : cell)
| Text (l : label).

Record sheet_meta : Type := mkMeta {
  headerRowIndex : nat;
  dataStartRowIndex : nat;
  mainColCount : nat;
  totalCols : nat;
  dataRowCount : nat
}.

Record group_result : Type := mkGroupResult {
  wsData : list (list sheet_cell);
  meta : sheet_meta;
  groupUpdateLines : list string
}.

Record group : Type := mkGroup {
  fileName : string;
  sheetBase : string;
  players : list player_row
}.

(** What [calculate] does in the end: one of its two alerts, or the export
    of the workbook (sheet names with their cells) and of the update text. *)
Inductive outcome : Type :=
| AlertNoGroups
| AlertNoRows
| Export (sheets : list (string * list (list sheet_cell)))
         (updateText : option string).

Section Sheets.

Variable roundCount : nat.
Variable fullMark : number.

Definition headerRow : list sheet_cell :=
  ([Text L_seq; Text L_player; Text L_rating; Text L_k]
   ++ map (fun i => Text (L_round (i + 1))) (seq 0 roundCount)
   ++ [Text L_total; Text L_avg; Text L_expected; Text L_change; Text L_final])%list.

Definition blank : sheet_cell := Data (CString "").

(** [padRow] of [calculateGroup], for a given [totalCols]. *)
Definition padRow (cols : nat) (arr : list sheet_cell) : list sheet_cell :=
  (arr ++ replicate (cols - length arr) blank)%list.

(** What [calculateGroup] returns: the rows of [calculateGroup] above
    inside the sheet layout, the layout indices and the update lines.  An
    assignment [row[c] = v] is [<[c := v]>]; every row it is applied to
    has at least 16 cells. *)
Definition calculateGroup_result (players : list player_row)
    (sheetTitle : string) : group_result :=
  let updatedPlayers := calculateGroup roundCount fullMark players in
  let mainColCount := length headerRow in
  let totalCols := Nat.max mainColCount 16 in
  let pad := padRow totalCols in
  let text (s : string) := Data (CString s) in
  let num (z : Z) := Data (CNumber (of_Z z)) in
  let row1 := pad [Text (L_title sheetTitle)] in
  let row2 := <[15%nat := Text L_k]> (<[14%nat := Text L_rating]> (pad [])) in
  let row3 :=
    <[15%nat := num 10]> (<[14%nat := Text L_2000_up]>
      (<[6%nat := text "L=LOSE"]> (<[5%nat := text "D=DRAW"]>
        (<[4%nat := text "W=WIN"]> (pad []))))) in
  let row4 := <[15%nat := num 15]> (<[14%nat := text "1700-1999"]> (pad [])) in
  let row5 := <[15%nat := num 20]> (<[14%nat := text "1550-1699"]> (pad [])) in
  let row6 := <[15%nat := num 30]> (<[14%nat := Text L_1549_down]> (pad [])) in
  let top := [row1; row2; row3; row4; row5; row6; pad []] in
  let headerRowIndex := length top in
  let withHeader := (top ++ [pad headerRow])%list in
  let dataStartRowIndex := length withHeader in
  let rows := map (fun r => pad (map Data (row_cells r))) updatedPlayers in
  mkGroupResult
    (withHeader ++ rows)%list
    (mkMeta headerRowIndex dataStartRowIndex mainColCount totalCols
            (length updatedPlayers))
    (map (fun r => update_line (row_cells r)) updatedPlayers).

(** The loop over the groups in [calculate]: the sheets appended to the
    workbook and the update lines, with the set of sheet names in use. *)
Fixpoint calculate_loop (groups : list group) (used : gset string)
    : option (list (string * list (list sheet_cell)) * list string) :=
  match groups with
  | [] => Some ([], [])
  | g :: rest =>
      match players g with
      | [] => calculate_loop rest used
      | _ =>
          let res := calculateGroup_result (players g) (sheetBase g) in
          match makeUniqueSheetName (sheetBase g) used with
          | Some (sheetName, used') =>
              match calculate_loop rest used' with
              | Some (sheets, lines) =>
                  Some ((sheetName, wsData res) :: sheets,
                        (groupUpdateLines res ++ lines)%list)
              | None => None
              end
          | None => None
          end
      end
  end.

(** [calculate], given the groups that were imported; [None] stands for a
    search for a sheet name that ran out of fuel, which does not happen
    (lemma [makeUniqueSheetName_fresh]). *)
Definition calculate (groups : list group) : option outcome :=
  match groups with
  | [] => Some AlertNoGroups
  | _ =>
      match calculate_loop groups ∅ with
      | Some ([], _) => Some AlertNoRows
      | Some (sheets, lines) =>
          Some (Export sheets
                  (match lines with
                   | [] => None
                   | _ => Some (join (String char_lf "") lines)
                   end))
      | None => None
      end
  end.

End Sheets.

(** ** Column widths ([applySheetFormatting]) *)

(** [arr[i] = v] on an array that may have holes: beyond the end, the
    array is extended, with holes up to [i]. *)
Definition array_set {A : Type} (i : nat) (v : A) (arr : list (option A))
    : list (option A) :=
  if (i <? length arr)%nat then <[i := Some v]> arr
  else (arr ++ replicate (i - length arr) None ++ [Some v])%list.

(** The array [cols] of the widths ([wch]) of the columns, as
    [applySheetFormatting] builds it from [roundCount] and [totalCols]. *)
Definition column_widths (roundCount totalCols : nat) : list (option N) :=
  let cols := array_set 0 6%N [] in
  let cols := array_set 1 12%N cols in
  let cols := array_set 2 8%N cols in
  let cols := array_set 3 6%N cols in
  let cols :=
    fold_left (fun cols i => array_set (4 + i) 6%N cols) (seq 0 roundCount) cols in
  let cols := array_set (4 + roundCount) 8%N cols in
  let cols := array_set (5 + roundCount) 14%N cols in
  let cols := array_set (6 + roundCount) 8%N cols in
  let cols := array_set (7 + roundCount) 8%N cols in
  let cols := array_set (8 + roundCount) 10%N cols in
  let cols :=
    fold_left (fun cols c => array_set c 12%N cols)
              (seq (length cols) (totalCols - length cols)) cols in
  let cols := array_set 14 12%N cols in
  array_set 15 6%N cols.

(** The group that the import handler makes of a file. *)
Definition import_group (file_name text : string) : group :=
  mkGroup file_name (sanitizeSheetName file_name) (parsePlayersFromText text).

(** ** Reading the update lines back ([processRankUpdate]) *)

(** The callback of [lines.forEach]: the key and the value stored in
    [updates], or [None] when [newRank.trim()] throws because the line has
    fewer than three fields. *)
Definition parse_update_line (line : string) : option (string * string) :=
  let fields := split_on char_comma (trim line) in
  match fields !! 0%nat, fields !! 2%nat with
  | Some name, Some newRank => Some (trim name, trim newRank)
  | _, _ => None
  end.

(** [text.split("\n").filter(Boolean)] and then the callback on every line,
    up to the first line that throws. *)
Definition parse_update_text (text : string) : option (list (string * string)) :=
  mapM parse_update_line (List.filter nonempty (split_on char_lf text)).

(** Every character of [s] satisfies [p]. *)
Fixpoint all_chars (p : ascii -> bool) (s : string) : bool :=
  match s with
  | String c r => p c && all_chars p r
  | EmptyString => true
  end.

(** The character [x] does not occur in [s]. *)
Definition lacks (x : ascii) : string -> bool :=
  all_chars (fun c => negb (Ascii.eqb c x)).

(** A string without comma, white space or line terminator. *)
Definition no_separator : string -> bool :=
  all_chars (fun c => negb (Ascii.eqb c ",") && negb (is_ws c)).

(** * Properties *)

(** ** Comparison and subtraction of doubles *)



Lemma sub_diag (x : number) : isFinite x = true -> sub x x = zero.
Proof.
  destruct x as [[]| | |s m e]; try discriminate; try reflexivity.
  intros _. unfold sub, SFsub. rewrite Z.min_id. unfold shl_align.
  rewrite Z.sub_diag. reflexivity.
Qed.

(** [of_Z] is exact on the integers below 2^53. *)

Lemma digits2_pos_size (p : positive) : digits2_pos p = Pos.size p.
Proof. induction p as [p IH|p IH|]; simpl; rewrite ?IH; reflexivity. Qed.

Lemma digits2_pos_shift (p k : positive) :
  digits2_pos (Pos.iter xO p k) = (digits2_pos p + k)%positive.
Proof.
  induction k as [|k IH] using Pos.peano_ind.
  - simpl. lia.
  - rewrite Pos.iter_succ. simpl. rewrite IH. lia.
Qed.

Lemma Zpos_shift (p k : positive) :
  Zpos (Pos.iter xO p k) = Zpos p * 2 ^ Zpos k.
Proof.
  induction k as [|k IH] using Pos.peano_ind.
  - simpl. lia.
  - rewrite Pos.iter_succ, Pos2Z.inj_succ, Z.pow_succ_r by lia.
    rewrite Pos2Z.inj_xO, IH. lia.
Qed.

Lemma binary_round_aux_exact (s : bool) (m : positive) (e : Z) :
  Zpos (digits2_pos m) = 53 -> -1074 <= e <= 971 ->
  binary_round_aux prec emax s (Zpos m) e loc_Exact = S754_finite s m e.
Proof.
  intros Hd He. unfold binary_round_aux, shr_fexp.
  cbn [shr_record_of_loc Zdigits2]. rewrite Hd.
  assert (Hf : fexp prec emax (53 + e) - e = 0).
  { unfold fexp, emin, prec, emax. lia. }
  rewrite Hf. cbn [shr shr_m loc_of_shr_record round_nearest_even Zdigits2].
  rewrite Hd, Hf. cbn [shr shr_m].
  unfold emax, prec. rewrite (proj2 (Z.leb_le e (1024 - 53))) by lia.
  reflexivity.
Qed.

Lemma size_le_53 (p : positive) : Zpos p < 2 ^ 53 -> Zpos (digits2_pos p) <= 53.
Proof.
  intros Hp. rewrite digits2_pos_size.
  pose proof (Pos.size_le p) as H.
  apply Pos2Z.pos_le_pos in H. rewrite Pos2Z.inj_pow in H.
  destruct (Z.le_gt_cases (Zpos (Pos.size p)) 53) as [|Hgt]; [assumption|].
  assert (2 ^ 54 <= 2 ^ Zpos (Pos.size p)) by (apply Z.pow_le_mono_r; lia).
  lia.
Qed.

Lemma binary_round_exact (s : bool) (p : positive) :
  Zpos p < 2 ^ 53 ->
  exists m e, binary_round prec emax s p 0 = S754_finite s m e /\
              e <= 0 /\ Zpos m = Zpos p * 2 ^ (- e).
Proof.
  intros Hp. pose proof (size_le_53 p Hp) as Hd.
  unfold binary_round.
  assert (Hf : fexp prec emax (Zpos (digits2_pos p) + 0) = Zpos (digits2_pos p) - 53).
  { unfold fexp, emin, prec, emax. lia. }
  rewrite Hf. unfold shl_align.
  destruct (Zpos (digits2_pos p) - 53 - 0) as [|k|k] eqn:Hk; [|lia|].
  - exists p, 0. rewrite binary_round_aux_exact by lia.
    split; [reflexivity|]. split; [lia|]. simpl. lia.
  - exists (Pos.iter xO p k), (Zpos (digits2_pos p) - 53).
    rewrite binary_round_aux_exact.
    + split; [reflexivity|]. split; [lia|]. rewrite Zpos_shift. f_equal. f_equal. lia.
    + rewrite digits2_pos_shift. lia.
    + lia.
Qed.

Lemma to_Z_of_Z (n : Z) :
  0 <= n < 2 ^ 53 -> isFinite (of_Z n) = true /\ to_Z (of_Z n) = n.
Proof.
  intros Hn. unfold of_Z, binary_normalize.
  destruct n as [|p|p]; [split; reflexivity| |lia].
  destruct (binary_round_exact false p) as (m & e & -> & He & Hm); [lia|].
  split; [reflexivity|]. unfold to_Z, cond_Zopp.
  destruct e as [|e|e]; [|lia|].
  - simpl in Hm. lia.
  - rewrite Hm. simpl Z.opp. apply Z.div_mul.
    apply Z.pow_nonzero; lia.
Qed.

(** ** The band table *)



Lemma breakpoints_ge0 (diff : number) :
  ge diff zero = true ->
  breakpoints diff = breakpoints zero.
Proof.
  intros H. unfold breakpoints, by_sign. rewrite H. reflexivity.
Qed.

Lemma breakpoints_lt0 (diff : number) :
  ge diff zero = false ->
  breakpoints diff = breakpoints (of_Z (-1)).
Proof.
  intros H. unfold breakpoints, by_sign. rewrite H. reflexivity.
Qed.

Lemma tiles_le (l : list (Z * Z * number)) (p q : Z) :
  tiles p l q = true -> p <= q.
Proof.
  revert p. induction l as [|c l IH]; intros p; simpl; [lia|].
  intros [[H1 H2]%andb_prop H3]%andb_prop. apply IH in H3. lia.
Qed.

Lemma tiles_lookup (l : list (Z * Z * number)) (p q : Z) (j : nat) b :
  tiles p l q = true -> l !! j = Some b ->
  p < b.1.1 /\ b.1.1 <= b.1.2 /\ b.1.2 <= q.
Proof.
  revert p j. induction l as [|c l IH]; intros p j; simpl; [discriminate|].
  intros [[H1 H2]%andb_prop H3]%andb_prop.
  pose proof (tiles_le _ _ _ H3) as Hq.
  destruct j as [|j]; simpl.
  - intros [= <-]. lia.
  - intros Hj. destruct (IH _ _ H3 Hj) as (? & ? & ?). lia.
Qed.

Lemma tiles_ordered (l : list (Z * Z * number)) (p q : Z) (i j : nat) b1 b2 :
  tiles p l q = true -> (i < j)%nat ->
  l !! i = Some b1 -> l !! j = Some b2 -> b1.1.2 < b2.1.1.
Proof.
  revert p i j. induction l as [|c l IH]; intros p i j; simpl; [discriminate|].
  intros [[H1 H2]%andb_prop H3]%andb_prop Hij.
  destruct j as [|j]; [lia|]. destruct i as [|i]; simpl.
  - intros [= <-] Hj. destruct (tiles_lookup _ _ _ _ _ H3 Hj). lia.
  - intros Hi Hj. apply (IH _ i j H3); [lia|assumption..].
Qed.

Lemma tiles_span (l : list (Z * Z * number)) (p q a : Z) :
  tiles p l q = true -> (p < a <= q <-> Exists (covers a) l).
Proof.
  revert p. induction l as [|c l IH]; intros p; simpl.
  - intros H. rewrite Exists_nil. lia.
  - intros [[H1 H2]%andb_prop H3]%andb_prop.
    rewrite Exists_cons, <- (IH _ H3). unfold covers.
    pose proof (tiles_le _ _ _ H3). lia.
Qed.

Lemma breakpoints_tiles (diff : number) : tiles (-1) (breakpoints diff) 734 = true.
Proof. reflexivity. Qed.

Lemma one_band_each (l : list (Z * Z * number)) (a : Z) :
  forallb (fun n => (length (List.filter (in_band (of_Z (Z.of_nat n))) l) =? 1)%nat)
          (seq 0 735) = true ->
  0 <= a <= 734 ->
  length (List.filter (in_band (of_Z a)) l) = 1%nat.
Proof.
  intros H Ha. rewrite forallb_forall in H.
  specialize (H (Z.to_nat a)). rewrite Z2Nat.id in H by lia.
  apply Nat.eqb_eq, H, in_seq. lia.
Qed.

(** C2 (amended). The table of [getExpectedScore] is a fixed, ordered list
    of exactly 50 bands (not 49): every band is non-empty, any two bands are
    disjoint with the earlier one entirely below the later one, the bands
    together cover exactly the integers 0..734, and the test of the source
    ([absDiff >= min && absDiff <= max]) accepts every integer [absDiff] of
    0..734 in exactly one band. *)
Theorem breakpoints_partition (diff : number) :
  length (breakpoints diff) = 50%nat /\
  (forall b, In b (breakpoints diff) -> b.1.1 <= b.1.2) /\
  (forall (i j : nat) b1 b2, (i < j)%nat ->
     breakpoints diff !! i = Some b1 -> breakpoints diff !! j = Some b2 ->
     b1.1.2 < b2.1.1) /\
  (forall a : Z, 0 <= a <= 734 <-> Exists (covers a) (breakpoints diff)) /\
  (forall a : Z, 0 <= a <= 734 ->
     length (List.filter (in_band (of_Z a)) (breakpoints diff)) = 1%nat).
Proof.
  pose proof (breakpoints_tiles diff) as Ht.
  split; [reflexivity|]. split; [|split; [|split]].
  - intros b [j Hj]%list_elem_of_In%list_elem_of_lookup.
    destruct (tiles_lookup _ _ _ _ _ Ht Hj) as (_ & ? & _). assumption.
  - intros i j b1 b2. apply (tiles_ordered _ _ _ _ _ _ _ Ht).
  - intros a. rewrite <- (tiles_span _ _ _ a Ht). lia.
  - intros a. apply one_band_each.
    destruct (ge diff zero) eqn:Hd.
    + rewrite (breakpoints_ge0 _ Hd). vm_compute. reflexivity.
    + rewrite (breakpoints_lt0 _ Hd). vm_compute. reflexivity.
Qed.

(** C2 (as stated). The table does not have 49 bands. *)
Lemma breakpoints_not_49 : length (breakpoints zero) <> 49%nat.
Proof. discriminate. Qed.

Lemma forallb_zip_lookup {A B : Type} (f : A -> B -> bool)
    (l1 : list A) (l2 : list B) (i : nat) (a : A) (b : B) :
  forallb (fun p => f p.1 p.2) (zip l1 l2) = true ->
  l1 !! i = Some a -> l2 !! i = Some b -> f a b = true.
Proof.
  revert l2 i. induction l1 as [|x l1 IH]; intros [|y l2] [|i]; simpl;
    try discriminate.
  - intros [H _]%andb_prop [= <-] [= <-]. exact H.
  - intros [_ H]%andb_prop. apply IH. exact H.
Qed.

(** ** [getExpectedScore] *)







(** C6. In every band after the first, the fraction chosen for [diff >= 0]
    and the fraction chosen for [diff < 0] add up to exactly 1; the first
    band, [0, 3], has the fraction 0.5 for either sign; hence
    [getExpectedScore(r, r)] is [fullMark * 0.5] for every finite [r]. *)
Theorem breakpoints_symmetric (fullMark : number) :
  (forall (d1 d2 : number) (i : nat) b1 b2,
     ge d1 zero = true -> ge d2 zero = false -> (1 <= i)%nat ->
     breakpoints d1 !! i = Some b1 -> breakpoints d2 !! i = Some b2 ->
     b1.1 = b2.1 /\ add b1.2 b2.2 = of_Z 1) /\
  (forall d : number,
     breakpoints d !! 0%nat = Some (0, 3, of_decimal false 5 (-1))) /\
  (forall r : number, isFinite r = true ->
     getExpectedScore fullMark r r = VNumber (mul fullMark (of_decimal false 5 (-1)))).
Proof.
  split; [|split].
  - intros d1 d2 i b1 b2 H1 H2 Hi.
    rewrite (breakpoints_ge0 _ H1), (breakpoints_lt0 _ H2).
    assert (HF : forallb (fun p => complementary p.1 p.2)
                   (zip (drop 1 (breakpoints zero))
                        (drop 1 (breakpoints (of_Z (-1))))) = true).
    { vm_compute. reflexivity. }
    destruct i as [|i]; [lia|]. intros Hb1 Hb2.
    pose proof (forallb_zip_lookup _ _ _ i b1 b2 HF Hb1 Hb2) as Hc.
    apply andb_prop in Hc as [Hc1 Hc2].
    split; [exact (bool_decide_eq_true_1 _ Hc1)|exact (bool_decide_eq_true_1 _ Hc2)].
  - intros d. reflexivity.
  - intros r Hr. unfold getExpectedScore. rewrite (sub_diag r Hr). reflexivity.
Qed.

(** C6, on an example: band 1 and two equal ratings. *)
Lemma breakpoints_symmetric_witness :
  add (lit 51) (lit 49) = of_Z 1 /\
  getExpectedScore (of_Z 4) (of_Z 1500) (of_Z 1500) = VNumber (of_Z 2).
Proof.
  split.
  - apply (proj1 (breakpoints_symmetric zero) zero (of_Z (-1)) 1%nat
             (4, 10, lit 51) (4, 10, lit 49)); reflexivity || lia.
  - apply (proj2 (proj2 (breakpoints_symmetric (of_Z 4))) (of_Z 1500)).
    reflexivity.
Defined.

(** ** The rating engine *)

Lemma round_step_resolved (players : list player_row) (player opp : player_row)
    (total : number) (empty i : nat) (z : Z) :
  opponentId (parseOpponentToken (player !! (3 + i)%nat)) = Some z ->
  0 <= z - 1 -> players !! Z.to_nat (z - 1) = Some opp ->
  round_step players player (total, empty) i
  = (add total (parseInt (opp !! 1%nat)), empty).
Proof.
  intros Hid Hz Hopp. unfold round_step. rewrite Hid. unfold opponentIndex.
  destruct (Z.eqb_spec z 0) as [->|_]; [lia|].
  unfold opponent_row. rewrite (proj2 (Z.leb_le _ _) Hz), Hopp. reflexivity.
Qed.

Lemma round_step_unresolved (players : list player_row) (player : player_row)
    (total : number) (empty i : nat) :
  unresolved players (opponentId (parseOpponentToken (player !! (3 + i)%nat))) ->
  round_step players player (total, empty) i = (total, S empty).
Proof.
  unfold round_step, unresolved.
  destruct (opponentId _) as [z|]; simpl.
  - intros [[=]|[[= ->]|(z' & [= <-] & Hz)]]; [reflexivity|].
    destruct (Z.eqb_spec z 0) as [->|_]; [reflexivity|].
    unfold opponent_row. destruct (Z.leb_spec 0 (z - 1)) as [H0|H0]; [|reflexivity].
    rewrite (proj2 (lookup_ge_None players (Z.to_nat (z - 1)))); [reflexivity|].
    lia.
  - reflexivity.
Qed.

Lemma opponent_totals_all_empty (roundCount : nat) (players : list player_row)
    (player : player_row) :
  (forall i, (i < roundCount)%nat ->
     unresolved players (opponentId (parseOpponentToken (player !! (3 + i)%nat)))) ->
  opponent_totals roundCount players player = (zero, roundCount).
Proof.
  unfold opponent_totals. intros H.
  assert (G : forall n start total empty,
    (forall i, (start <= i < start + n)%nat ->
       unresolved players (opponentId (parseOpponentToken (player !! (3 + i)%nat)))) ->
    fold_left (round_step players player) (seq start n) (total, empty)
    = (total, (empty + n)%nat)).
  { induction n as [|n IH]; intros start total empty Hn; cbn [seq fold_left].
    - f_equal. lia.
    - rewrite round_step_unresolved by (apply Hn; lia).
      rewrite IH by (intros; apply Hn; lia). f_equal. lia. }
  apply (G roundCount 0%nat zero 0%nat). intros i Hi. apply H. lia.
Qed.

Lemma avgOpponent_no_rounds (roundCount : nat) (total : number) :
  avgOpponent roundCount total roundCount = zero.
Proof. unfold avgOpponent. rewrite Z.sub_diag. reflexivity. Qed.

(** C1 (amended). A round token that resolves to the player's own position
    is treated like any other reference to a row of the group: the player's
    own rating is added to the opponent-rating sum and [empty] is left
    unchanged. *)
Theorem self_reference_is_counted (players : list player_row) (idx : nat)
    (player : player_row) (total : number) (empty i : nat) :
  players !! idx = Some player ->
  opponentId (parseOpponentToken (player !! (3 + i)%nat)) = Some (Z.of_nat idx + 1) ->
  round_step players player (total, empty) i
  = (add total (parseInt (player !! 1%nat)), empty).
Proof.
  intros Hp Hid. apply (round_step_resolved _ _ _ _ _ _ _ Hid); [lia|].
  replace (Z.of_nat idx + 1 - 1) with (Z.of_nat idx) by lia.
  rewrite Nat2Z.id. exact Hp.
Qed.

(** C1, on an example: the first player of [group_self] names position 1. *)
Lemma self_reference_is_counted_witness :
  round_step group_self ["A"; "1500"; "20"; "1"; ""; ""; ""; "2"] (zero, 0%nat) 0
  = (add zero (of_Z 1500), 0%nat).
Proof.
  apply (self_reference_is_counted group_self 0); reflexivity.
Defined.

(** C1 (as stated). The first player of [group_self] has the token ["1"],
    its own position; the round is not counted as empty: the sum becomes
    the player's own rating 1500, and over the four rounds only the three
    blank tokens are empty, so that the average opponent rating is 1500. *)
Lemma self_reference_not_empty :
  exists player,
    group_self !! 0%nat = Some player /\
    opponentId (parseOpponentToken (player !! 3%nat)) = Some 1 /\
    round_step group_self player (zero, 0%nat) 0 = (of_Z 1500, 0%nat) /\
    round_step group_self player (zero, 0%nat) 0 <> (zero, 1%nat) /\
    opponent_totals 4 group_self player = (of_Z 1500, 3%nat) /\
    avgOpponentRating (compute_row 4 (of_Z 4) group_self 0 player) = of_Z 1500.
Proof.
  eexists. split; [reflexivity|]. vm_compute. repeat split. discriminate.
Qed.

(** C5. Every one of the [roundCount] tokens of a player goes through
    [parseOpponentToken]; a round whose [opponentId] is [null] or 0, or whose
    [opponentId - 1] is outside [0, players.length), adds nothing to the sum
    and adds one to [empty]; and when every round is empty the divisor is 0
    and the average opponent rating is 0. *)
Theorem unresolved_round_is_empty (roundCount : nat) (fullMark : number)
    (players : list player_row) (player : player_row) :
  opponent_totals roundCount players player
  = fold_left (round_step players player) (seq 0 roundCount) (zero, 0%nat) /\
  (forall (i : nat) (total : number) (empty : nat),
     round_step players player (total, empty) i
     = match opponent_row players
               (opponentIndex
                  (opponentId (parseOpponentToken (player !! (3 + i)%nat)))) with
       | Some opp => (add total (parseInt (opp !! 1%nat)), empty)
       | None => (total, S empty)
       end) /\
  (forall (i : nat) (total : number) (empty : nat),
     unresolved players (opponentId (parseOpponentToken (player !! (3 + i)%nat))) ->
     round_step players player (total, empty) i = (total, S empty)) /\
  ((forall i, (i < roundCount)%nat ->
      unresolved players (opponentId (parseOpponentToken (player !! (3 + i)%nat)))) ->
   opponent_totals roundCount players player = (zero, roundCount) /\
   Z.of_nat roundCount - Z.of_nat (opponent_totals roundCount players player).2 = 0 /\
   forall index,
     avgOpponentRating (compute_row roundCount fullMark players index player) = zero).
Proof.
  split; [reflexivity|]. split; [reflexivity|]. split.
  - intros i total empty. apply round_step_unresolved.
  - intros H. pose proof (opponent_totals_all_empty _ _ _ H) as Ht.
    split; [exact Ht|]. split; [rewrite Ht; simpl; lia|].
    intros index. unfold compute_row. rewrite Ht. simpl.
    apply avgOpponent_no_rounds.
Qed.

(** C5, on an example: the second player of [group_ceil] over the rounds
    2 to 4 (tokens [""], [""] and ["bye"]), and a player without rounds. *)
Lemma unresolved_round_is_empty_witness :
  round_step group_ceil ["B"; "1500"; "20"; "1"; ""; ""; "bye"; "1"] (zero, 0%nat) 3
  = (zero, 1%nat) /\
  avgOpponentRating
    (compute_row 2 (of_Z 2) group_ceil 2 ["X"; "1500"; "20"; "0"; "9"; "1"]) = zero.
Proof.
  split.
  - apply (proj1 (proj2 (proj2 (unresolved_round_is_empty 4 (of_Z 4) group_ceil _)))).
    left. reflexivity.
  - apply (proj2 (proj2 (proj2 (unresolved_round_is_empty 2 (of_Z 2) group_ceil _)))).
    intros [|[|i]] Hi; [right; left; reflexivity| |lia].
    right. right. exists 9. split; [reflexivity|]. simpl. lia.
Defined.

Lemma calculateGroup_lookup (roundCount : nat) (fullMark : number)
    (players : list player_row) (i : nat) (row : computed_row) :
  calculateGroup roundCount fullMark players !! i = Some row ->
  exists player,
    players !! i = Some player /\
    row = compute_row roundCount fullMark players i player.
Proof.
  unfold calculateGroup. rewrite list_lookup_imap.
  destruct (players !! i) as [player|]; simpl; [|discriminate].
  intros [= <-]. exists player. split; reflexivity.
Qed.



(** C8 (Scenario A). A player rated 1500 with K-factor 20 and total score
    2.5, whose four round tokens each resolve to a row rated 1500, gets,
    with [roundCount = 4] and [fullMark = 4], the average opponent rating
    1500, the expected score "2.0", the rating change 10 (shown as "10.0")
    and the final rating 1510. *)
Theorem scenario_A (players : list player_row) (index : nat) (player : player_row) :
  parseInt (player !! 1%nat) = of_Z 1500 ->
  parseInt (player !! 2%nat) = of_Z 20 ->
  parseFloat (player !! 7%nat) = of_decimal false 25 (-1) ->
  (forall i, (i < 4)%nat ->
     exists opp,
       opponent_row players
         (opponentIndex (opponentId (parseOpponentToken (player !! (3 + i)%nat))))
       = Some opp /\
       parseInt (opp !! 1%nat) = of_Z 1500) ->
  let row := compute_row 4 (of_Z 4) players index player in
  opponent_totals 4 players player = (of_Z 6000, 0%nat) /\
  avgOpponentRating row = of_Z 1500 /\
  getExpectedScore (of_Z 4) (rating row) (avgOpponentRating row) = VNumber (of_Z 2) /\
  expectedScore row = "2.0" /\
  change_of (totalScore row) (expectedScore row) (kFactor row) = of_Z 10 /\
  ratingChange row = "10.0" /\
  finalRating row = of_Z 1510.
Proof.
  intros Hrank Hk Hscore Hopp.
  assert (Ht : opponent_totals 4 players player = (of_Z 6000, 0%nat)).
  { unfold opponent_totals. cbn [seq fold_left]. unfold round_step.
    destruct (Hopp 0%nat ltac:(lia)) as (o0 & -> & ->).
    destruct (Hopp 1%nat ltac:(lia)) as (o1 & -> & ->).
    destruct (Hopp 2%nat ltac:(lia)) as (o2 & -> & ->).
    destruct (Hopp 3%nat ltac:(lia)) as (o3 & -> & ->).
    vm_compute. reflexivity. }
  intros row. unfold row, compute_row.
  rewrite Ht, Hrank, Hk. change (3 + 4)%nat with 7%nat. rewrite Hscore.
  cbn [avgOpponentRating expectedScore ratingChange finalRating rating
       totalScore kFactor].
  split; [reflexivity|].
  repeat split; vm_compute; reflexivity.
Qed.

(** C8, on the group [group_A]. *)
Lemma scenario_A_witness :
  exists row,
    calculateGroup 4 (of_Z 4) group_A !! 0%nat = Some row /\
    avgOpponentRating row = of_Z 1500 /\
    expectedScore row = "2.0" /\
    ratingChange row = "10.0" /\
    finalRating row = of_Z 1510.
Proof.
  eexists. split; [reflexivity|].
  assert (H : forall i, (i < 4)%nat ->
     exists opp,
       opponent_row group_A
         (opponentIndex (opponentId (parseOpponentToken
            (["A"; "1500"; "20"; "2"; "W3"; "D4"; "D5"; "2.5"] !! (3 + i)%nat))))
       = Some opp /\
       parseInt (opp !! 1%nat) = of_Z 1500).
  { intros [|[|[|[|i]]]] Hi; [ | | | |lia].
    all: eexists; split; reflexivity. }
  destruct (scenario_A group_A 0 ["A"; "1500"; "20"; "2"; "W3"; "D4"; "D5"; "2.5"]
              eq_refl eq_refl eq_refl H)
    as (_ & Ha & _ & He & _ & Hr & Hf).
  repeat split; assumption.
Defined.

(** ** Opponent tokens *)

Lemma is_marker_spec (c : ascii) :
  is_marker c = existsb (Ascii.eqb c) ["W"; "w"; "D"; "d"; "L"; "l"]%char.
Proof. destruct c as [[] [] [] [] [] [] [] []]; reflexivity. Qed.

Lemma is_digit_not_ws (c : ascii) : is_digit c = true -> is_ws c = false.
Proof. destruct c as [[] [] [] [] [] [] [] []]; try discriminate; reflexivity. Qed.

Lemma is_digit_not_sign (c : ascii) :
  is_digit c = true -> c <> "-"%char /\ c <> "+"%char.
Proof. intros H; split; intros ->; discriminate. Qed.

Lemma append_nil (s : string) : EmptyString +:+ s = s.
Proof. reflexivity. Qed.

Lemma append_cons (c : ascii) (s t : string) :
  String c s +:+ t = String c (s +:+ t).
Proof. reflexivity. Qed.

Lemma read_digits_run (ds rest : string) (acc : N) (cnt : nat) :
  all_digits ds = true -> starts_with_digit rest = false ->
  read_digits (ds +:+ rest) acc cnt
  = (decimal_value_from acc ds, (cnt + String.length ds)%nat, rest).
Proof.
  revert acc cnt. induction ds as [|c ds IH]; intros acc cnt Hd Hr;
    rewrite ?append_nil, ?append_cons;
    cbn [read_digits decimal_value_from String.length].
  - rewrite Nat.add_0_r. destruct rest as [|c r]; [reflexivity|].
    cbn [starts_with_digit] in Hr. cbn [read_digits]. rewrite Hr. reflexivity.
  - cbn [all_digits] in Hd. apply andb_prop in Hd as [Hc Hd]. rewrite Hc.
    rewrite IH by assumption. f_equal. f_equal. lia.
Qed.

Lemma parseInt_digit_run (ds rest : string) :
  ds <> EmptyString -> all_digits ds = true -> starts_with_digit rest = false ->
  parseInt (Some (ds +:+ rest)) = of_Z (Z.of_N (decimal_value ds)).
Proof.
  intros Hne Hd Hr. unfold parseInt, parseInt_math, ToString.
  destruct ds as [|c ds]; [contradiction|].
  pose proof Hd as Hc. cbn [all_digits] in Hc. apply andb_prop in Hc as [Hc _].
  rewrite append_cons. cbn [trim_start]. rewrite (is_digit_not_ws c Hc).
  assert (Hs : read_sign (String c (ds +:+ rest)) = (false, String c (ds +:+ rest))).
  { destruct (is_digit_not_sign c Hc) as [H1 H2]. unfold read_sign.
    destruct (Ascii.eqb_spec c "-") as [->|_]; [contradiction|].
    destruct (Ascii.eqb_spec c "+") as [->|_]; [contradiction|].
    destruct c as [[] [] [] [] [] [] [] []]; try reflexivity; contradiction. }
  rewrite Hs, <- append_cons.
  rewrite read_digits_run by assumption. cbn [String.length Nat.add].
  unfold decimal_value. destruct (decimal_value_from 0 (String c ds)); reflexivity.
Qed.

(** C7. [parseOpponentToken] returns a record on every input; a missing
    token or one that is empty after trimming gives [opponentId = null] and
    [display = ""]; a first character among [W], [D], [L] in either case is
    removed before [parseInt(_, 10)] reads the number, and only that one
    character, while [display] keeps the trimmed token as it is; and when
    [parseInt] finds no integer, [opponentId] is [null]. *)
Theorem parseOpponentToken_total :
  (forall tok, exists id d, parseOpponentToken tok = mkToken id d) /\
  parseOpponentToken None = mkToken None "" /\
  (forall t, trim t = "" -> parseOpponentToken (Some t) = mkToken None "") /\
  (forall c, is_marker c = true <-> In c ["W"; "w"; "D"; "d"; "L"; "l"]%char) /\
  (forall t c rest, trim t = String c rest -> is_marker c = true ->
     parseOpponentToken (Some t)
     = mkToken (if isFinite (parseInt (Some rest))
                then Some (to_Z (parseInt (Some rest))) else None)
               (String c rest)) /\
  (forall t c rest, trim t = String c rest -> is_marker c = false ->
     parseOpponentToken (Some t)
     = mkToken (if isFinite (parseInt (Some (String c rest)))
                then Some (to_Z (parseInt (Some (String c rest)))) else None)
               (String c rest)) /\
  (forall t c rest, trim t = String c rest ->
     parseInt_math (Some (if is_marker c then rest else String c rest)) = None ->
     parseOpponentToken (Some t) = mkToken None (trim t)).
Proof.
  split; [|split; [|split; [|split; [|split; [|split]]]]].
  - intros tok. destruct (parseOpponentToken tok) as [id d]. exists id, d. reflexivity.
  - reflexivity.
  - intros t Ht. unfold parseOpponentToken. rewrite Ht. reflexivity.
  - intros c. rewrite is_marker_spec, existsb_exists. split.
    + intros (x & Hx & ->%Ascii.eqb_eq). exact Hx.
    + intros Hc. exists c. split; [exact Hc|apply Ascii.eqb_refl].
  - intros t c rest Ht Hc. unfold parseOpponentToken. rewrite Ht, Hc. reflexivity.
  - intros t c rest Ht Hc. unfold parseOpponentToken. rewrite Ht, Hc. reflexivity.
  - intros t c rest Ht Hp. unfold parseOpponentToken. rewrite Ht.
    replace (if is_marker c then slice_1 (String c rest) else String c rest)
      with (if is_marker c then rest else String c rest)
      by (destruct (is_marker c); reflexivity).
    unfold parseInt. rewrite Hp. reflexivity.
Qed.

(** C7, on examples. *)
Lemma parseOpponentToken_total_witness :
  parseOpponentToken (Some "   ") = mkToken None "" /\
  parseOpponentToken (Some " w12 ") = mkToken (Some 12) "w12" /\
  parseOpponentToken (Some "WW3") = mkToken None "WW3" /\
  parseOpponentToken (Some "bye") = mkToken None "bye".
Proof.
  destruct parseOpponentToken_total as (_ & _ & H1 & _ & H2 & _ & H3).
  split; [apply H1; reflexivity|].
  split; [apply (H2 " w12 " "w"%char "12"); reflexivity|].
  split; [apply (H3 "WW3" "W"%char "W3"); reflexivity|].
  apply (H3 "bye" "b"%char "ye"); reflexivity.
Defined.

Lemma opponentId_digit_run (t pre ds rest : string) :
  trim t = pre +:+ ds +:+ rest ->
  pre = "" \/ (exists c, is_marker c = true /\ pre = String c "") ->
  ds <> "" -> all_digits ds = true -> starts_with_digit rest = false ->
  parseOpponentToken (Some t)
  = mkToken (if isFinite (of_Z (Z.of_N (decimal_value ds)))
             then Some (to_Z (of_Z (Z.of_N (decimal_value ds)))) else None)
            (trim t).
Proof.
  intros Ht Hpre Hne Hd Hr. unfold parseOpponentToken. rewrite Ht.
  destruct Hpre as [->|(c & Hc & ->)].
  - rewrite append_nil. destruct ds as [|c ds]; [contradiction|].
    rewrite append_cons.
    assert (Hm : is_marker c = false).
    { cbn [all_digits] in Hd. apply andb_prop in Hd as [Hd _].
      destruct c as [[] [] [] [] [] [] [] []]; try discriminate; reflexivity. }
    rewrite Hm, <- append_cons, parseInt_digit_run by assumption. reflexivity.
  - rewrite append_cons, append_nil, Hc. cbn [slice_1].
    rewrite parseInt_digit_run by assumption. reflexivity.
Qed.

Lemma opponentId_null_iff (u : string) (c : ascii) (r : string) :
  trim u = String c r ->
  opponentId (parseOpponentToken (Some u)) = None <->
  parseInt_math (Some (if is_marker c then r else String c r)) = None \/
  exists neg p,
    parseInt_math (Some (if is_marker c then r else String c r)) = Some (neg, Npos p) /\
    isFinite (of_Z (cond_Zopp neg (Zpos p))) = false.
Proof.
  intros Hu. unfold parseOpponentToken. rewrite Hu.
  replace (if is_marker c then slice_1 (String c r) else String c r)
    with (if is_marker c then r else String c r)
    by (destruct (is_marker c); reflexivity).
  unfold parseInt.
  destruct (parseInt_math _) as [[neg [|p]]|]; cbn [opponentId].
  - split; [discriminate|]. intros [[=]|(neg' & p' & [=] & _)].
  - destruct (isFinite (of_Z (cond_Zopp neg (Zpos p)))) eqn:Hf.
    + split; [discriminate|]. intros [[=]|(neg' & p' & [= -> ->] & Hf')].
      rewrite Hf in Hf'. discriminate.
    + split; [|reflexivity]. intros _. right. exists neg, p. split; [reflexivity|exact Hf].
  - split; [|reflexivity]. intros _. left. reflexivity.
Qed.

(** C10 (amended). For a token that, once trimmed, is an optional marker
    [W], [D] or [L], then a non-empty run of digits, then a rest that does
    not begin with a digit, [opponentId] is the double nearest to the value
    of the digit run when that double is finite, and [null] when the value
    overflows to [Infinity].  In particular [opponentId] is exactly the
    value of the digit run whenever that value is below 2^53.  In general
    [opponentId] is [null] for a non-blank token exactly when [parseInt]
    finds no integer in it or finds one that has no finite double. *)
Theorem opponentId_prefix_parse (t pre ds rest : string) :
  trim t = pre +:+ ds +:+ rest ->
  pre = "" \/ (exists c, is_marker c = true /\ pre = String c "") ->
  ds <> "" -> all_digits ds = true -> starts_with_digit rest = false ->
  let n := Z.of_N (decimal_value ds) in
  opponentId (parseOpponentToken (Some t))
  = (if isFinite (of_Z n) then Some (to_Z (of_Z n)) else None) /\
  (n < 2 ^ 53 -> opponentId (parseOpponentToken (Some t)) = Some n) /\
  display (parseOpponentToken (Some t)) = trim t /\
  (forall u c r, trim u = String c r ->
     let maybeNumber := if is_marker c then r else String c r in
     opponentId (parseOpponentToken (Some u)) = None <->
     parseInt_math (Some maybeNumber) = None \/
     exists neg p, parseInt_math (Some maybeNumber) = Some (neg, Npos p) /\
                   isFinite (of_Z (cond_Zopp neg (Zpos p))) = false).
Proof.
  intros Ht Hpre Hne Hd Hr n.
  rewrite (opponentId_digit_run t pre ds rest) by assumption.
  cbn [opponentId display]. fold n.
  split; [reflexivity|]. split; [|split; [reflexivity|]].
  - intros Hn. destruct (to_Z_of_Z n) as [-> ->]; [unfold n; lia|reflexivity].
  - intros u c r Hu. apply opponentId_null_iff. exact Hu.
Qed.

(** C10, on the tokens ["3abc"] and ["W3x"]. *)
Lemma opponentId_prefix_parse_witness :
  opponentId (parseOpponentToken (Some "3abc")) = Some 3 /\
  opponentId (parseOpponentToken (Some "W3x")) = Some 3.
Proof.
  split.
  - apply (opponentId_prefix_parse "3abc" "" "3" "abc");
      [reflexivity|left; reflexivity|discriminate|reflexivity|reflexivity|].
    vm_compute. reflexivity.
  - apply (opponentId_prefix_parse "W3x" "W" "3" "x");
      [reflexivity| |discriminate|reflexivity|reflexivity|].
    + right. exists "W"%char. split; reflexivity.
    + vm_compute. reflexivity.
Defined.

(** C10 (as stated). [overflow_token] is a run of 310 digits followed by
    [x]; the value of the run, 10^309, has no finite double, and
    [opponentId] is [null].  The token [9007199254740993x] holds 2^53 + 1,
    and [opponentId] is the nearest double, 2^53. *)
Lemma opponentId_overflow_null :
  (exists ds, overflow_token = ds +:+ "x" /\ ds <> "" /\ all_digits ds = true /\
              Z.of_N (decimal_value ds) = 10 ^ 309) /\
  opponentId (parseOpponentToken (Some overflow_token)) = None /\
  opponentId (parseOpponentToken (Some "9007199254740993x"))
  = Some 9007199254740992.
Proof.
  split; [|split].
  - exists (String "1" (string_of_list_ascii (repeat "0"%char 309))).
    split; [reflexivity|]. split; [discriminate|].
    split; vm_compute; reflexivity.
  - vm_compute. reflexivity.
  - vm_compute. reflexivity.
Qed.

(** ** Sheet names *)

Lemma length_append (s t : string) :
  String.length (s +:+ t) = (String.length s + String.length t)%nat.
Proof. induction s as [|c s IH]; [reflexivity|]. rewrite append_cons. simpl. lia. Qed.

Lemma length_slice_to (n : nat) (s : string) : (String.length (slice_to n s) <= n)%nat.
Proof.
  revert s. induction n as [|n IH]; intros [|c s]; simpl; try lia.
  specialize (IH s). lia.
Qed.

Lemma slice_to_all (n : nat) (s : string) :
  (String.length s <= n)%nat -> slice_to n s = s.
Proof.
  revert s. induction n as [|n IH]; intros [|c s]; simpl; try reflexivity; try lia.
  intros H. rewrite IH by lia. reflexivity.
Qed.

Lemma length_sanitizeSheetName (name : string) :
  (String.length (sanitizeSheetName name) <= 31)%nat.
Proof. apply length_slice_to. Qed.

Lemma is_digit_digit_char (d : N) : (d < 10)%N -> is_digit (digit_char d) = true.
Proof.
  intros H. unfold is_digit, digit_char, code.
  rewrite N_ascii_embedding by lia.
  apply andb_true_intro. split; apply N.leb_le; lia.
Qed.

Lemma digit_val_digit_char (d : N) : (d < 10)%N -> digit_val (digit_char d) = d.
Proof.
  intros H. unfold digit_val, digit_char, code.
  rewrite N_ascii_embedding by lia. lia.
Qed.

Lemma decimal_value_from_app (a : N) (s t : string) :
  decimal_value_from a (s +:+ t) = decimal_value_from (decimal_value_from a s) t.
Proof.
  revert a. induction s as [|c s IH]; intros a; [reflexivity|].
  rewrite append_cons. simpl. apply IH.
Qed.

Lemma all_digits_app (s t : string) :
  all_digits (s +:+ t) = all_digits s && all_digits t.
Proof.
  induction s as [|c s IH]; [reflexivity|].
  rewrite append_cons. simpl. rewrite IH. apply andb_assoc.
Qed.

Lemma append_assoc (s t u : string) : (s +:+ t) +:+ u = s +:+ t +:+ u.
Proof. induction s as [|c s IH]; [reflexivity|]. rewrite !append_cons, IH. reflexivity. Qed.

Lemma digits_of_spec (fuel : nat) (n : N) (acc : string) :
  (n < 2 ^ N.of_nat (S fuel))%N ->
  exists D, digits_of fuel n acc = D +:+ acc /\
            all_digits D = true /\ decimal_value D = n /\
            (1 <= String.length D)%nat /\
            (n = 0%N \/ (10 ^ N.of_nat (String.length D - 1) <= n)%N).
Proof.
  revert n acc. induction fuel as [|fuel IH]; intros n acc Hn.
  - exists (String (digit_char (n mod 10)) ""). simpl digits_of.
    assert (n < 10)%N by (simpl in Hn; lia).
    rewrite N.mod_small by lia.
    split; [reflexivity|]. split; [simpl; rewrite is_digit_digit_char by lia; reflexivity|].
    split; [unfold decimal_value; simpl; rewrite digit_val_digit_char by lia; lia|].
    split; [simpl; lia|]. simpl. lia.
  - cbn [digits_of].
    assert (Hm : (n mod 10 < 10)%N) by (apply N.mod_lt; lia).
    destruct (N.eqb_spec (n / 10) 0) as [Hq|Hq].
    + exists (String (digit_char (n mod 10)) "").
      assert (n < 10)%N by (apply N.div_small_iff in Hq; lia).
      rewrite N.mod_small by lia.
      split; [reflexivity|]. split; [simpl; rewrite is_digit_digit_char by lia; reflexivity|].
      split; [unfold decimal_value; simpl; rewrite digit_val_digit_char by lia; lia|].
      split; [simpl; lia|]. simpl. lia.
    + destruct (IH (n / 10)%N (String (digit_char (n mod 10)) acc))
        as (D & HD & Hall & Hval & Hlen & Hmag).
      { rewrite Nat2N.inj_succ, N.pow_succ_r' in Hn.
        apply N.Div0.div_lt_upper_bound. lia. }
      exists (D +:+ String (digit_char (n mod 10)) "").
      split; [rewrite HD, append_assoc; reflexivity|].
      split; [rewrite all_digits_app, Hall; simpl; rewrite is_digit_digit_char by lia; reflexivity|].
      split.
      { unfold decimal_value in *. rewrite decimal_value_from_app, Hval. simpl.
        rewrite digit_val_digit_char by lia.
        rewrite N.mul_comm. symmetry. apply N.div_mod. discriminate. }
      rewrite length_append. simpl. split; [lia|]. right.
      destruct Hmag as [Hz|Hmag]; [contradiction|].
      replace (String.length D + 1 - 1)%nat with (S (String.length D - 1)) by lia.
      rewrite Nat2N.inj_succ, N.pow_succ_r'.
      apply (N.mul_le_mono_l _ _ 10) in Hmag.
      pose proof (N.Div0.mul_div_le n 10). lia.
Qed.

Lemma N_to_string_spec (n : N) :
  all_digits (N_to_string n) = true /\
  decimal_value (N_to_string n) = n /\
  (1 <= String.length (N_to_string n))%nat /\
  (n = 0%N \/ (10 ^ N.of_nat (String.length (N_to_string n) - 1) <= n)%N).
Proof.
  destruct (digits_of_spec (N.to_nat (N.log2 n)) n "") as (D & HD & H).
  - rewrite Nat2N.inj_succ, N2Nat.id.
    destruct n as [|p]; [reflexivity|]. apply N.log2_spec. lia.
  - unfold N_to_string. rewrite HD.
    replace (D +:+ "") with D; [exact H|].
    clear. induction D as [|c D IH]; [reflexivity|]. rewrite append_cons, <- IH. reflexivity.
Qed.

Lemma N_to_string_inj : Inj (=) (=) N_to_string.
Proof.
  intros i j H.
  destruct (N_to_string_spec i) as (_ & <- & _).
  destruct (N_to_string_spec j) as (_ & <- & _).
  rewrite H. reflexivity.
Qed.

Lemma after_underscore_digits (D : string) :
  all_digits D = true -> after_underscore D = None.
Proof.
  induction D as [|c D IH]; [reflexivity|]. simpl.
  intros [Hc HD]%andb_prop. rewrite (IH HD).
  destruct (Ascii.eqb_spec c "_") as [->|_]; [discriminate|reflexivity].
Qed.

Lemma after_underscore_suffix (A D : string) :
  all_digits D = true -> after_underscore (A +:+ "_" +:+ D) = Some D.
Proof.
  intros HD. induction A as [|c A IH].
  - rewrite append_nil, append_cons, append_nil. simpl.
    rewrite (after_underscore_digits D HD). reflexivity.
  - rewrite append_cons. simpl. rewrite IH. reflexivity.
Qed.

Lemma candidate_inj (baseName : string) : Inj (=) (=) (candidate baseName).
Proof.
  intros i j H. unfold candidate, suffix in H.
  apply (f_equal after_underscore) in H.
  rewrite !after_underscore_suffix in H by apply N_to_string_spec.
  injection H as H. exact (N_to_string_inj _ _ H).
Qed.

Lemma length_N_to_string (n : N) :
  (n < 10 ^ 30)%N -> (String.length (N_to_string n) <= 30)%nat.
Proof.
  intros Hn. destruct (N_to_string_spec n) as (_ & _ & Hlen & [->|Hmag]).
  - vm_compute. lia.
  - destruct (Nat.le_gt_cases (String.length (N_to_string n)) 30) as [|Hgt]; [assumption|].
    assert (10 ^ 30 <= 10 ^ N.of_nat (String.length (N_to_string n) - 1))%N.
    { apply N.pow_le_mono_r; lia. }
    lia.
Qed.

Lemma length_candidate (baseName : string) (i : N) :
  (i < 10 ^ 30)%N -> (String.length (candidate baseName i) <= 31)%nat.
Proof.
  intros Hi. unfold candidate. rewrite length_append.
  pose proof (length_slice_to (31 - String.length (suffix i)) baseName) as H.
  assert (String.length (suffix i) <= 31)%nat.
  { unfold suffix. rewrite append_cons, append_nil. simpl.
    pose proof (length_N_to_string i Hi). lia. }
  lia.
Qed.

Lemma makeUnique_loop_spec (baseName : string) (existing : gset string)
    (fuel : nat) (i : N) :
  (makeUnique_loop fuel baseName existing i = None /\
   forall j, (i <= j < i + N.of_nat fuel)%N -> candidate baseName j ∈ existing) \/
  (exists j, (i <= j < i + N.of_nat fuel)%N /\
     makeUnique_loop fuel baseName existing i
     = Some (candidate baseName j, {[ candidate baseName j ]} ∪ existing) /\
     (candidate baseName j ∉ existing) /\
     forall j', (i <= j' < j)%N -> candidate baseName j' ∈ existing).
Proof.
  revert i. induction fuel as [|fuel IH]; intros i.
  - left. split; [reflexivity|]. intros j Hj. lia.
  - cbn [makeUnique_loop]. destruct (bool_decide_reflect (candidate baseName i ∈ existing)) as [Hin|Hout].
    + destruct (IH (i + 1)%N) as [[Hnone Hall]|(j & Hj & Hsome & Hfresh & Hmin)].
      * left. split; [exact Hnone|]. intros j Hj.
        destruct (N.eq_dec j i) as [->|Hne]; [exact Hin|]. apply Hall. lia.
      * right. exists j. split; [lia|]. split; [exact Hsome|]. split; [exact Hfresh|].
        intros j' Hj'. destruct (N.eq_dec j' i) as [->|Hne]; [exact Hin|]. apply Hmin. lia.
    + right. exists i. split; [lia|]. split; [reflexivity|]. split; [exact Hout|].
      intros j' Hj'. lia.
Qed.

Lemma candidates_not_all_used (baseName : string) (existing : gset string) (i : N) :
  ~ (forall j, (i <= j < i + N.of_nat (S (size existing)))%N ->
       candidate baseName j ∈ existing).
Proof.
  intros Hall.
  set (l := (fun k => candidate baseName (i + N.of_nat k)%N) <$> seq 0 (S (size existing))).
  assert (Hnd : NoDup l).
  { apply NoDup_fmap_2_strong; [|apply NoDup_seq].
    intros x y _ _ Hxy. apply candidate_inj in Hxy. lia. }
  assert (Hsub : list_to_set l ⊆ existing).
  { intros x Hx. apply elem_of_list_to_set in Hx.
    apply list_elem_of_fmap in Hx as (k & -> & Hk).
    apply elem_of_seq in Hk. apply Hall. lia. }
  apply subseteq_size in Hsub. rewrite size_list_to_set in Hsub by exact Hnd.
  unfold l in Hsub. rewrite length_fmap, length_seq in Hsub. lia.
Qed.

(** C9. For every name and every set of names in use (a [Set] holds fewer
    than 2^53 entries), the base name made by [sanitizeSheetName] has at
    most 31 characters, and [makeUniqueSheetName] returns a name of at most
    31 characters that was not in use and adds it to the set: the base name
    itself when it is free, and otherwise the base name cut to fit followed
    by [_i], where [i >= 2] is the least counter whose candidate is not in
    use. *)
Theorem sheet_names_short_and_unique (name : string) (existing : gset string) :
  Z.of_nat (size existing) < 2 ^ 53 ->
  let base := sanitizeSheetName name in
  (String.length base <= 31)%nat /\
  exists result,
    makeUniqueSheetName base existing = Some (result, {[ result ]} ∪ existing) /\
    (String.length result <= 31)%nat /\
    (result ∉ existing) /\
    (base ∉ existing -> result = base) /\
    (base ∈ existing ->
       exists i : N, (2 <= i)%N /\
         result = slice_to (31 - String.length (suffix i)) base +:+ "_" +:+ N_to_string i /\
         forall j : N, (2 <= j < i)%N -> candidate base j ∈ existing).
Proof.
  intros Hsize base.
  pose proof (length_sanitizeSheetName name) as Hlen. fold base in Hlen.
  split; [exact Hlen|].
  unfold makeUniqueSheetName. rewrite (slice_to_all 31 base Hlen).
  destruct (bool_decide_reflect (base ∈ existing)) as [Hin|Hout].
  - destruct (makeUnique_loop_spec base existing (S (size existing)) 2)
      as [[_ Hall]|(j & Hj & Hsome & Hfresh & Hmin)].
    { exfalso. exact (candidates_not_all_used base existing 2%N Hall). }
    exists (candidate base j). split; [exact Hsome|].
    split; [apply length_candidate; lia|]. split; [exact Hfresh|].
    split; [intros Hn; contradiction|]. intros _.
    exists j. split; [lia|]. split; [reflexivity|]. exact Hmin.
  - exists base. split; [reflexivity|]. split; [exact Hlen|]. split; [exact Hout|].
    split; [reflexivity|]. intros Hn. contradiction.
Qed.

(** C9, on an example: the names ["A"] and ["A_2"] are in use. *)
Lemma sheet_names_short_and_unique_witness :
  exists result,
    makeUniqueSheetName (sanitizeSheetName "A.txt") {[ "A"; "A_2" ]}
    = Some (result, {[ result ]} ∪ {[ "A"; "A_2" ]}) /\
    (String.length result <= 31)%nat /\
    result = candidate "A" 3.
Proof.
  destruct (sheet_names_short_and_unique "A.txt" {[ "A"; "A_2" ]})
    as (_ & r & H1 & H2 & _); [vm_compute; reflexivity|].
  exists r. split; [exact H1|]. split; [exact H2|].
  assert (H : makeUniqueSheetName (sanitizeSheetName "A.txt") {[ "A"; "A_2" ]}
              = Some (candidate "A" 3, {[ candidate "A" 3 ]} ∪ {[ "A"; "A_2" ]}))
    by (vm_compute; reflexivity).
  rewrite H in H1. injection H1 as <- _. reflexivity.
Defined.

(** Names are handed out in the order in which the groups are seen. *)
Lemma assignSheetNames_first_seen :
  assignSheetNames (sanitizeSheetName <$> ["A.txt"; "B.txt"; "A.csv"; "A"; "A_2"]) ∅
  = [Some "A"; Some "B"; Some "A_2"; Some "A_3"; Some "A_2_2"].
Proof. vm_compute. reflexivity. Qed.

(** * Reading, laying out and writing back *)

(** ** Strings *)

Lemma all_chars_app (p : ascii -> bool) (s t : string) :
  all_chars p (s +:+ t) = all_chars p s && all_chars p t.
Proof.
  induction s as [|c s IH]; [reflexivity|].
  rewrite append_cons. cbn [all_chars]. rewrite IH. apply andb_assoc.
Qed.

Lemma all_chars_impl (p q : ascii -> bool) (s : string) :
  (forall c, p c = true -> q c = true) ->
  all_chars p s = true -> all_chars q s = true.
Proof.
  intros Hpq. induction s as [|c s IH]; [reflexivity|].
  cbn [all_chars]. rewrite !andb_true_iff. intros [Hc Hs]. auto.
Qed.

Lemma all_chars_trim_start (p : ascii -> bool) (s : string) :
  all_chars p s = true -> all_chars p (trim_start s) = true.
Proof.
  induction s as [|c s IH]; [reflexivity|].
  cbn [trim_start]. destruct (is_ws c); [|tauto].
  cbn [all_chars]. rewrite andb_true_iff. intros [_ Hs]. auto.
Qed.

Lemma all_chars_trim_end (p : ascii -> bool) (s : string) :
  all_chars p s = true -> all_chars p (trim_end s) = true.
Proof.
  induction s as [|c s IH]; [reflexivity|].
  cbn [all_chars trim_end]. rewrite andb_true_iff. intros [Hc Hs].
  specialize (IH Hs). destruct (trim_end s) as [|c' r'].
  - destruct (is_ws c); [reflexivity|]. cbn [all_chars]. rewrite Hc. reflexivity.
  - cbn [all_chars] in *. rewrite Hc. exact IH.
Qed.

Lemma all_chars_trim (p : ascii -> bool) (s : string) :
  all_chars p s = true -> all_chars p (trim s) = true.
Proof. intros H. apply all_chars_trim_end, all_chars_trim_start, H. Qed.

Lemma length_trim_start (s : string) :
  (String.length (trim_start s) <= String.length s)%nat.
Proof.
  induction s as [|c s IH]; [reflexivity|].
  cbn [trim_start]. destruct (is_ws c); cbn [String.length]; lia.
Qed.

Lemma trim_start_head (c : ascii) (r : string) :
  trim_start (String c r) = String c r -> is_ws c = false.
Proof.
  cbn [trim_start]. destruct (is_ws c); [|reflexivity].
  intros H. pose proof (length_trim_start r) as Hl. rewrite H in Hl.
  cbn [String.length] in Hl. lia.
Qed.

Lemma trim_start_idem (s : string) : trim_start (trim_start s) = trim_start s.
Proof.
  induction s as [|c s IH]; [reflexivity|].
  cbn [trim_start]. destruct (is_ws c) eqn:Hc; [exact IH|].
  cbn [trim_start]. rewrite Hc. reflexivity.
Qed.

Lemma trim_end_cons (c : ascii) (r : string) :
  is_ws c = false -> trim_end (String c r) = String c (trim_end r).
Proof.
  intros Hc. cbn [trim_end]. destruct (trim_end r); [rewrite Hc|]; reflexivity.
Qed.

Lemma trim_end_idem (s : string) : trim_end (trim_end s) = trim_end s.
Proof.
  induction s as [|c s IH]; [reflexivity|].
  cbn [trim_end]. destruct (trim_end s) as [|c' r'] eqn:Hr.
  - destruct (is_ws c) eqn:Hc; [reflexivity|].
    cbn [trim_end]. rewrite Hc. reflexivity.
  - cbn [trim_end]. cbn [trim_end] in IH. rewrite IH. reflexivity.
Qed.

Lemma trim_start_trim_end (t : string) :
  trim_start t = t -> trim_start (trim_end t) = trim_end t.
Proof.
  destruct t as [|c r]; [reflexivity|].
  intros H. apply trim_start_head in H.
  rewrite trim_end_cons by exact H. cbn [trim_start]. rewrite H. reflexivity.
Qed.

(** [trim] leaves a trimmed string as it is. *)
Lemma trim_idem (s : string) : trim (trim s) = trim s.
Proof.
  unfold trim.
  rewrite (trim_start_trim_end (trim_start s)) by apply trim_start_idem.
  apply trim_end_idem.
Qed.

(** A string that does not end in white space is left by [trim_end],
    whatever is put before it. *)
Lemma trim_end_app (a t : string) :
  trim_end t = t -> t <> EmptyString -> trim_end (a +:+ t) = a +:+ t.
Proof.
  intros Ht Hne. induction a as [|c a IH]; [exact Ht|].
  rewrite append_cons. cbn [trim_end]. rewrite IH.
  destruct (a +:+ t) eqn:E; [|reflexivity].
  destruct a; [|discriminate]. contradiction.
Qed.

Lemma no_ws_trim (s : string) :
  all_chars (fun c => negb (is_ws c)) s = true -> trim s = s.
Proof.
  intros H. unfold trim.
  assert (Hs : trim_start s = s).
  { destruct s as [|c r]; [reflexivity|]. cbn [all_chars] in H.
    apply andb_true_iff in H as [Hc _]. cbn [trim_start].
    destruct (is_ws c); [discriminate|reflexivity]. }
  rewrite Hs. clear Hs. induction s as [|c r IH]; [reflexivity|].
  cbn [all_chars] in H. apply andb_true_iff in H as [Hc Hr].
  rewrite trim_end_cons by (destruct (is_ws c); [discriminate|reflexivity]).
  rewrite IH by exact Hr. reflexivity.
Qed.

(** ** [split] and [join] *)

Lemma split_on_cons (sep : ascii) (s : string) :
  exists h t, split_on sep s = h :: t.
Proof.
  destruct s as [|c r]; [eexists _, _; reflexivity|].
  cbn [split_on]. destruct (Ascii.eqb c sep); [eexists _, _; reflexivity|].
  destruct (split_on sep r); eexists _, _; reflexivity.
Qed.

(** Splitting distributes over a separator. *)
Lemma split_on_app (sep : ascii) (a b : string) :
  split_on sep (a +:+ String sep b) = (split_on sep a ++ split_on sep b)%list.
Proof.
  induction a as [|c a IH].
  - rewrite append_nil. cbn [split_on]. rewrite Ascii.eqb_refl. reflexivity.
  - rewrite append_cons. cbn [split_on]. rewrite IH.
    destruct (Ascii.eqb c sep); [reflexivity|].
    destruct (split_on_cons sep a) as (h & t & ->). reflexivity.
Qed.

Lemma split_on_lacks (sep : ascii) (s : string) :
  lacks sep s = true -> split_on sep s = [s].
Proof.
  unfold lacks. induction s as [|c s IH]; [reflexivity|].
  cbn [all_chars split_on]. rewrite andb_true_iff. intros [Hc Hs].
  destruct (Ascii.eqb c sep); [discriminate|]. rewrite IH by exact Hs. reflexivity.
Qed.

Lemma split_on_fields_lack (sep : ascii) (s : string) :
  Forall (fun f => lacks sep f = true) (split_on sep s).
Proof.
  unfold lacks. induction s as [|c s IH]; [repeat constructor|].
  cbn [split_on]. destruct (Ascii.eqb c sep) eqn:Hc.
  - constructor; [reflexivity|exact IH].
  - destruct (split_on sep s) as [|h t]; [repeat constructor; cbn; rewrite Hc; reflexivity|].
    inversion IH as [|? ? Hh Ht]; subst. constructor; [|exact Ht].
    cbn [all_chars]. rewrite Hc, Hh. reflexivity.
Qed.

Lemma split_on_all_chars (p : ascii -> bool) (sep : ascii) (s : string) :
  all_chars p s = true ->
  Forall (fun f => all_chars p f = true) (split_on sep s).
Proof.
  induction s as [|c s IH]; [repeat constructor|].
  cbn [all_chars split_on]. rewrite andb_true_iff. intros [Hc Hs].
  specialize (IH Hs). destruct (Ascii.eqb c sep).
  - constructor; [reflexivity|exact IH].
  - destruct (split_on sep s) as [|h t]; [repeat constructor; cbn; rewrite Hc; reflexivity|].
    inversion IH as [|? ? Hh Ht]; subst. constructor; [|exact Ht].
    cbn [all_chars]. rewrite Hc, Hh. reflexivity.
Qed.

Lemma remove_char_app (x : ascii) (a b : string) :
  remove_char x (a +:+ b) = remove_char x a +:+ remove_char x b.
Proof.
  induction a as [|c a IH]; [reflexivity|].
  rewrite append_cons. cbn [remove_char]. rewrite IH.
  destruct (Ascii.eqb c x); reflexivity.
Qed.

Lemma remove_char_lacks (x : ascii) (s : string) :
  lacks x (remove_char x s) = true.
Proof.
  unfold lacks. induction s as [|c s IH]; [reflexivity|].
  cbn [remove_char]. destruct (Ascii.eqb c x) eqn:Hc; [exact IH|].
  cbn [all_chars]. rewrite Hc, IH. reflexivity.
Qed.

(** ** Reading the player rows *)

Lemma parsed_row_fields (text : string) (row : player_row) :
  In row (parsePlayersFromText text) ->
  Forall (fun f =>
            trim f = f /\ lacks char_comma f = true /\
            lacks char_lf f = true /\ lacks char_cr f = true) row.
Proof.
  intros Hrow. unfold parsePlayersFromText in Hrow.
  apply filter_In in Hrow as [Hrow _].
  apply in_map_iff in Hrow as (line & <- & Hline).
  apply filter_In in Hline as [Hline _].
  apply in_map_iff in Hline as (l0 & <- & Hl0).
  assert (Hlf : lacks char_lf l0 = true).
  { pose proof (split_on_fields_lack char_lf (remove_char char_cr text)) as H.
    rewrite List.Forall_forall in H. apply H, Hl0. }
  assert (Hcr : lacks char_cr l0 = true).
  { pose proof (split_on_all_chars _ char_lf _ (remove_char_lacks char_cr text)) as H.
    rewrite List.Forall_forall in H. apply H, Hl0. }
  apply List.Forall_forall. intros f Hf.
  apply in_map_iff in Hf as (f0 & <- & Hf0).
  split; [apply trim_idem|].
  split.
  { apply all_chars_trim.
    pose proof (split_on_fields_lack char_comma (trim l0)) as H.
    rewrite List.Forall_forall in H. apply H, Hf0. }
  split.
  - apply all_chars_trim.
    pose proof (split_on_all_chars _ char_comma _ (all_chars_trim _ _ Hlf)) as H.
    rewrite List.Forall_forall in H. apply H, Hf0.
  - apply all_chars_trim.
    pose proof (split_on_all_chars _ char_comma _ (all_chars_trim _ _ Hcr)) as H.
    rewrite List.Forall_forall in H. apply H, Hf0.
Qed.

(** X1. Every field of a row read by [parsePlayersFromText] is trimmed
    and holds no comma, line feed or carriage return. *)
Theorem parsePlayersFromText_fields (text : string) :
  Forall (Forall (fun f =>
            trim f = f /\ lacks char_comma f = true /\
            lacks char_lf f = true /\ lacks char_cr f = true))
         (parsePlayersFromText text).
Proof.
  apply List.Forall_forall. intros row Hrow.
  exact (parsed_row_fields text row Hrow).
Qed.

Lemma parsePlayersFromText_In (text : string) (row : player_row) :
  In row (parsePlayersFromText text) -> isValidPlayerRow row = true.
Proof. unfold parsePlayersFromText. intros H. apply filter_In in H. tauto. Qed.

Lemma isValidPlayerRow_spec (row : player_row) :
  isValidPlayerRow row = true ->
  (4 <= length row)%nat /\
  isFinite (parseInt (row !! 1%nat)) = true /\
  isFinite (parseInt (row !! 2%nat)) = true.
Proof.
  unfold isValidPlayerRow. rewrite !andb_true_iff, negb_true_iff, Nat.ltb_ge. tauto.
Qed.

(** X2. Every row computed for an imported file has a name, and a rating
    and a K-factor that are finite numbers. *)
Theorem imported_rows_are_rated (roundCount : nat) (fullMark : number)
    (text : string) :
  Forall (fun r => is_Some (name r) /\
                   isFinite (rating r) = true /\ isFinite (kFactor r) = true)
         (calculateGroup roundCount fullMark (parsePlayersFromText text)).
Proof.
  apply Forall_lookup. intros i r Hr.
  apply calculateGroup_lookup in Hr as (player & Hp & ->).
  assert (Hin : In player (parsePlayersFromText text)).
  { apply list_elem_of_In. eapply list_elem_of_lookup_2, Hp. }
  apply parsePlayersFromText_In, isValidPlayerRow_spec in Hin as (Hlen & Hr1 & Hr2).
  unfold compute_row. destruct (opponent_totals _ _ _) as [total empty].
  cbn [name rating kFactor]. split; [|split; assumption].
  apply lookup_lt_is_Some. lia.
Qed.

(** X3. A line feed separates two parts of a file that are read
    independently of each other, and so does a carriage return followed
    by a line feed. *)
Theorem parsePlayersFromText_lines (a b : string) :
  parsePlayersFromText (a +:+ String char_lf b)
  = (parsePlayersFromText a ++ parsePlayersFromText b)%list /\
  parsePlayersFromText (a +:+ String char_cr (String char_lf b))
  = (parsePlayersFromText a ++ parsePlayersFromText b)%list.
Proof.
  assert (H : forall a b,
    remove_char char_cr (a +:+ String char_lf b)
    = remove_char char_cr a +:+ String char_lf (remove_char char_cr b)).
  { intros a' b'. rewrite remove_char_app. reflexivity. }
  assert (H1 : parsePlayersFromText (a +:+ String char_lf b)
               = (parsePlayersFromText a ++ parsePlayersFromText b)%list).
  { unfold parsePlayersFromText. rewrite H, split_on_app.
    rewrite map_app, List.filter_app, map_app, List.filter_app. reflexivity. }
  split; [exact H1|]. rewrite <- H1.
  unfold parsePlayersFromText. rewrite !remove_char_app. reflexivity.
Qed.

Lemma remove_char_all_chars (p : ascii -> bool) (x : ascii) (s : string) :
  all_chars p s = true -> all_chars p (remove_char x s) = true.
Proof.
  induction s as [|c s IH]; [reflexivity|].
  cbn [all_chars remove_char]. rewrite andb_true_iff. intros [Hc Hs].
  destruct (Ascii.eqb c x); [auto|]. cbn [all_chars]. rewrite Hc. auto.
Qed.

Lemma length_filter_le {A : Type} (f : A -> bool) (l : list A) :
  (length (List.filter f l) <= length l)%nat.
Proof.
  induction l as [|x l IH]; [reflexivity|].
  cbn [List.filter]. destruct (f x); cbn [length]; lia.
Qed.

(** X4. A carriage return is deleted wherever it stands: alone, it does
    not end a line but joins what it separates.  A file without any line
    feed, such as one whose lines end in carriage returns only, is read
    as a single line and gives one row at most. *)
Theorem parsePlayersFromText_cr (a b : string) :
  parsePlayersFromText (a +:+ String char_cr b) = parsePlayersFromText (a +:+ b) /\
  (lacks char_lf a = true -> (length (parsePlayersFromText a) <= 1)%nat).
Proof.
  split.
  - unfold parsePlayersFromText. rewrite !remove_char_app. reflexivity.
  - intros Hlf. unfold parsePlayersFromText.
    rewrite split_on_lacks by (apply remove_char_all_chars, Hlf).
    etransitivity; [apply length_filter_le|]. rewrite length_map.
    etransitivity; [apply length_filter_le|]. reflexivity.
Qed.

(** ** Opponent tokens *)

Lemma is_marker_not_ws (c : ascii) : is_marker c = true -> is_ws c = false.
Proof. destruct c as [[] [] [] [] [] [] [] []]; try discriminate; reflexivity. Qed.

Lemma trim_start_end_comm (s : string) :
  trim_start (trim_end s) = trim_end (trim_start s).
Proof.
  induction s as [|c r IH]; [reflexivity|].
  destruct (is_ws c) eqn:Hc.
  - cbn [trim_start trim_end]. rewrite Hc, <- IH.
    destruct (trim_end r) as [|c' r']; [reflexivity|].
    cbn [trim_start]. rewrite Hc. reflexivity.
  - rewrite trim_end_cons by exact Hc. cbn [trim_start]. rewrite Hc.
    rewrite trim_end_cons by exact Hc. reflexivity.
Qed.

Lemma parseInt_trim_end (s : string) :
  parseInt (Some (trim_end s)) = parseInt (Some (trim s)).
Proof.
  assert (H : trim_start (trim_end s) = trim_start (trim s)).
  { unfold trim. rewrite (trim_start_end_comm (trim_start s)), trim_start_idem.
    apply trim_start_end_comm. }
  unfold parseInt, parseInt_math. cbn [ToString]. rewrite H. reflexivity.
Qed.

(** X5. A result letter in front of a token changes nothing of the
    opponent that is read, unless the token begins with a result letter
    already. *)
Theorem marker_is_ignored (m : ascii) (s : string) :
  is_marker m = true ->
  match trim s with String c _ => is_marker c = false | EmptyString => True end ->
  opponentId (parseOpponentToken (Some (String m s)))
  = opponentId (parseOpponentToken (Some s)).
Proof.
  intros Hm Hs. pose proof (is_marker_not_ws m Hm) as Hws.
  assert (Ht : trim (String m s) = String m (trim_end s)).
  { unfold trim. cbn [trim_start]. rewrite Hws. apply trim_end_cons, Hws. }
  unfold parseOpponentToken at 1. rewrite Ht, Hm. cbn [slice_1 opponentId].
  rewrite parseInt_trim_end. unfold parseOpponentToken.
  destruct (trim s) as [|c r]; [reflexivity|]. rewrite Hs. reflexivity.
Qed.

(** X5, on an example: the token ["W5"] against the token ["5"]. *)
Lemma marker_is_ignored_witness :
  opponentId (parseOpponentToken (Some "W5")) = opponentId (parseOpponentToken (Some "5")).
Proof. apply (marker_is_ignored "W" "5"); reflexivity. Defined.

(** ** The loop over the rounds *)



(** ** Rows that are too short *)

Lemma sub_NaN (y : number) : sub NaN y = NaN.
Proof. destruct y; reflexivity. Qed.

Lemma mul_NaN (y : number) : mul NaN y = NaN.
Proof. destruct y; reflexivity. Qed.

Lemma add_NaN_r (x : number) : add x NaN = NaN.
Proof. destruct x; reflexivity. Qed.

(** X7. A row with no field at position [3 + roundCount] has no score to
    read: its total score and its final rating are [NaN], and the rating
    change is shown as ["NaN"]. *)
Theorem short_row_gives_NaN (roundCount : nat) (fullMark : number)
    (players : list player_row) (index : nat) (player : player_row) :
  (length player <= 3 + roundCount)%nat ->
  let r := compute_row roundCount fullMark players index player in
  totalScore r = NaN /\ ratingChange r = "NaN" /\ finalRating r = NaN.
Proof.
  intros Hlen r. subst r. unfold compute_row, player_row in *.
  rewrite (lookup_ge_None_2 player (3 + roundCount)) by lia.
  destruct (opponent_totals _ _ _) as [total empty].
  cbn [totalScore ratingChange finalRating].
  change (parseFloat None) with NaN. unfold change_of.
  rewrite sub_NaN, mul_NaN, add_NaN_r. repeat split; reflexivity.
Qed.

(** X7, on an example: a row of four fields in a tournament of two
    rounds passes [isValidPlayerRow] and is too short. *)
Lemma short_row_gives_NaN_witness :
  isValidPlayerRow ["A"; "1500"; "20"; "W2"] = true /\
  let r := compute_row 2 (of_Z 2) [["A"; "1500"; "20"; "W2"]] 0
                       ["A"; "1500"; "20"; "W2"] in
  totalScore r = NaN /\ ratingChange r = "NaN" /\ finalRating r = NaN.
Proof.
  split; [reflexivity|].
  apply (short_row_gives_NaN 2 (of_Z 2)). simpl. lia.
Defined.

(** ** Sheet names *)

Lemma all_chars_slice_to (p : ascii -> bool) (n : nat) (s : string) :
  all_chars p s = true -> all_chars p (slice_to n s) = true.
Proof.
  revert s. induction n as [|n IH]; intros [|c r]; try reflexivity.
  cbn [all_chars slice_to]. rewrite !andb_true_iff. intros [Hc Hr]. auto.
Qed.

Lemma replace_forbidden_clean (s : string) :
  all_chars (fun c => negb (is_forbidden c)) (replace_forbidden s) = true.
Proof.
  induction s as [|c r IH]; [reflexivity|].
  cbn [replace_forbidden all_chars]. rewrite IH, andb_true_r.
  destruct (is_forbidden c) eqn:Hc; [reflexivity|]. rewrite Hc. reflexivity.
Qed.

Lemma trim_start_trim (s : string) : trim_start (trim s) = trim s.
Proof. apply trim_start_trim_end, trim_start_idem. Qed.

(** X8. The name made by [sanitizeSheetName] is not empty, has at most
    31 characters, none of which is one of [: \ / ? * [ ]], and does not
    begin with white space. *)
Theorem sanitizeSheetName_clean (name : string) :
  let s := sanitizeSheetName name in
  s <> EmptyString /\
  (String.length s <= 31)%nat /\
  all_chars (fun c => negb (is_forbidden c)) s = true /\
  trim_start s = s.
Proof.
  intros s. subst s. split; [|split; [apply length_sanitizeSheetName|]].
  - unfold sanitizeSheetName.
    destruct (trim (replace_forbidden (remove_extension name))); discriminate.
  - unfold sanitizeSheetName.
    pose proof (all_chars_trim _ _ (replace_forbidden_clean (remove_extension name))) as Hc.
    pose proof (trim_start_trim (replace_forbidden (remove_extension name))) as Ht.
    destruct (trim (replace_forbidden (remove_extension name))) as [|c r] eqn:E.
    + split; reflexivity.
    + split; [apply all_chars_slice_to, Hc|].
      apply trim_start_head in Ht. cbn [slice_to trim_start]. rewrite Ht. reflexivity.
Qed.

(** ** The sheet of a group *)

Lemma length_row_cells (r : computed_row) :
  length (row_cells r) = (9 + length (roundTokens r))%nat.
Proof.
  unfold row_cells. cbn [app length]. rewrite length_app, length_map.
  cbn [length]. lia.
Qed.

Lemma roundTokens_compute_row (roundCount : nat) (fullMark : number)
    (players : list player_row) (index : nat) (player : player_row) :
  roundTokens (compute_row roundCount fullMark players index player)
  = List.firstn roundCount (List.skipn 3 player).
Proof.
  unfold compute_row. destruct (opponent_totals _ _ _). reflexivity.
Qed.

Lemma length_roundTokens (roundCount : nat) (fullMark : number)
    (players : list player_row) (index : nat) (player : player_row) :
  length (roundTokens (compute_row roundCount fullMark players index player))
  = Nat.min roundCount (length player - 3).
Proof.
  rewrite roundTokens_compute_row, length_firstn, length_skipn. reflexivity.
Qed.

Lemma length_headerRow (roundCount : nat) :
  length (headerRow roundCount) = (9 + roundCount)%nat.
Proof.
  unfold headerRow. cbn [app length]. rewrite length_app, length_map, length_seq.
  cbn [length]. lia.
Qed.


Lemma padRow_lookup_lt (cols : nat) (arr : list sheet_cell) (j : nat) (c : sheet_cell) :
  arr !! j = Some c -> padRow cols arr !! j = Some c.
Proof. intros H. unfold padRow. apply lookup_app_l_Some, H. Qed.

Lemma padRow_lookup_ge (cols : nat) (arr : list sheet_cell) (j : nat) :
  (length arr <= j < cols)%nat -> padRow cols arr !! j = Some blank.
Proof.
  intros H. unfold padRow. rewrite lookup_app_r by lia.
  apply lookup_replicate_2. lia.
Qed.

Lemma length_calculateGroup (roundCount : nat) (fullMark : number)
    (players : list player_row) :
  length (calculateGroup roundCount fullMark players) = length players.
Proof. unfold calculateGroup. apply length_imap. Qed.

Lemma length_groupUpdateLines (roundCount : nat) (fullMark : number)
    (players : list player_row) (sheetTitle : string) :
  length (groupUpdateLines (calculateGroup_result roundCount fullMark players sheetTitle))
  = length players.
Proof.
  unfold calculateGroup_result. cbn [groupUpdateLines].
  rewrite length_map. apply length_calculateGroup.
Qed.


Lemma row_cells_lookup_token (r : computed_row) (j : nat) :
  (j < length (roundTokens r))%nat ->
  row_cells r !! (4 + j)%nat = CString <$> roundTokens r !! j.
Proof.
  intros Hj. unfold row_cells.
  rewrite (lookup_app_r [_; _; _; _]) by (cbn [length]; lia).
  cbn [length]. replace (4 + j - 4)%nat with j by lia.
  rewrite lookup_app_l by (rewrite length_map; exact Hj).
  apply list_lookup_fmap.
Qed.

Lemma row_cells_lookup_tail (r : computed_row) (k : nat) :
  row_cells r !! (4 + length (roundTokens r) + k)%nat
  = [ CNumber (totalScore r); CNumber (avgOpponentRating r);
      CString (expectedScore r); CString (ratingChange r);
      CNumber (finalRating r) ] !! k.
Proof.
  unfold row_cells.
  rewrite (lookup_app_r [_; _; _; _]) by (cbn [length]; lia).
  rewrite lookup_app_r by (rewrite length_map; cbn [length]; lia).
  rewrite length_map. cbn [length]. f_equal. lia.
Qed.

Lemma headerRow_lookup_round (roundCount j : nat) :
  (j < roundCount)%nat ->
  headerRow roundCount !! (4 + j)%nat = Some (Text (L_round (j + 1))).
Proof.
  intros Hj. unfold headerRow.
  rewrite (lookup_app_r [_; _; _; _]) by (cbn [length]; lia).
  cbn [length]. replace (4 + j - 4)%nat with j by lia.
  rewrite lookup_app_l by (rewrite length_map, length_seq; exact Hj).
  rewrite list_lookup_fmap, lookup_seq_lt by exact Hj. reflexivity.
Qed.

Lemma headerRow_lookup_tail (roundCount k : nat) :
  headerRow roundCount !! (4 + roundCount + k)%nat
  = [Text L_total; Text L_avg; Text L_expected; Text L_change; Text L_final] !! k.
Proof.
  unfold headerRow.
  rewrite (lookup_app_r [_; _; _; _]) by (cbn [length]; lia).
  rewrite lookup_app_r by (rewrite length_map, length_seq; cbn [length]; lia).
  rewrite length_map, length_seq. cbn [length]. f_equal. lia.
Qed.

Lemma wsData_lookup_header (roundCount : nat) (fullMark : number)
    (players : list player_row) (sheetTitle : string) :
  let res := calculateGroup_result roundCount fullMark players sheetTitle in
  wsData res !! headerRowIndex (meta res)
  = Some (padRow (totalCols (meta res)) (headerRow roundCount)).
Proof. reflexivity. Qed.

Lemma wsData_lookup_data (roundCount : nat) (fullMark : number)
    (players : list player_row) (sheetTitle : string) (i : nat)
    (player : player_row) :
  players !! i = Some player ->
  let res := calculateGroup_result roundCount fullMark players sheetTitle in
  wsData res !! (dataStartRowIndex (meta res) + i)%nat
  = Some (padRow (totalCols (meta res))
            (map Data (row_cells (compute_row roundCount fullMark players i player)))).
Proof.
  intros Hp res. subst res. unfold calculateGroup_result.
  cbn [wsData meta dataStartRowIndex totalCols].
  rewrite lookup_app_r by lia.
  match goal with |- _ !! ?n = _ => replace n with i by lia end.
  change (map ?f ?l) with (f <$> l).
  rewrite list_lookup_fmap. unfold calculateGroup.
  rewrite list_lookup_imap, Hp. reflexivity.
Qed.

(** X10. In the sheet, the row of a player who has a field for every
    round stands under the header: the token of round [j + 1] under the
    header of that round, and total score, average opponent rating,
    expected score, change and final rating under theirs. *)
Theorem full_row_is_aligned (roundCount : nat) (fullMark : number)
    (players : list player_row) (sheetTitle : string) (i : nat)
    (player : player_row) :
  players !! i = Some player ->
  (3 + roundCount <= length player)%nat ->
  let res := calculateGroup_result roundCount fullMark players sheetTitle in
  let r := compute_row roundCount fullMark players i player in
  exists header row,
    wsData res !! headerRowIndex (meta res) = Some header /\
    wsData res !! (dataStartRowIndex (meta res) + i)%nat = Some row /\
    (forall j, (j < roundCount)%nat ->
       header !! (4 + j)%nat = Some (Text (L_round (j + 1))) /\
       row !! (4 + j)%nat = (fun t => Data (CString t)) <$> player !! (3 + j)%nat) /\
    (forall k, (k < 5)%nat ->
       header !! (4 + roundCount + k)%nat
       = [Text L_total; Text L_avg; Text L_expected; Text L_change; Text L_final] !! k /\
       row !! (4 + roundCount + k)%nat
       = [ Data (CNumber (totalScore r)); Data (CNumber (avgOpponentRating r));
           Data (CString (expectedScore r)); Data (CString (ratingChange r));
           Data (CNumber (finalRating r)) ] !! k).
Proof.
  intros Hp Hlen res r. unfold player_row in *.
  exists (padRow (totalCols (meta res)) (headerRow roundCount)),
         (padRow (totalCols (meta res)) (map Data (row_cells r))).
  split; [apply wsData_lookup_header|].
  split; [apply wsData_lookup_data, Hp|].
  assert (Htok : length (roundTokens r) = roundCount).
  { subst r. rewrite length_roundTokens. lia. }
  split.
  - intros j Hj. split.
    + apply padRow_lookup_lt, headerRow_lookup_round, Hj.
    + assert (Hsome : is_Some (player !! (3 + j)%nat))
        by (apply lookup_lt_is_Some; lia).
      destruct Hsome as [t Ht]. rewrite Ht. apply padRow_lookup_lt.
      change (map ?f ?l) with (f <$> l).
      rewrite list_lookup_fmap, row_cells_lookup_token by lia.
      subst r. rewrite roundTokens_compute_row.
      change (List.firstn ?n ?l) with (take n l).
      change (List.skipn ?n ?l) with (drop n l).
      rewrite lookup_take_lt by exact Hj. rewrite lookup_drop, Ht. reflexivity.
  - intros k Hk. split.
    + do 5 (destruct k as [|k];
              [apply padRow_lookup_lt; rewrite headerRow_lookup_tail; reflexivity|]).
      lia.
    + do 5 (destruct k as [|k];
              [apply padRow_lookup_lt; change (map ?f ?l) with (f <$> l);
               rewrite list_lookup_fmap; rewrite <- Htok at 1;
               rewrite row_cells_lookup_tail; reflexivity|]).
      lia.
Qed.

(** X10, on an example: two players, one round. *)
Lemma full_row_is_aligned_witness :
  let players := [["A"; "1500"; "20"; "W2"; "1"]; ["B"; "1500"; "20"; "L1"; "0"]] in
  let res := calculateGroup_result 1 (of_Z 1) players "A" in
  let r := compute_row 1 (of_Z 1) players 0 ["A"; "1500"; "20"; "W2"; "1"] in
  exists header row,
    wsData res !! headerRowIndex (meta res) = Some header /\
    wsData res !! (dataStartRowIndex (meta res) + 0)%nat = Some row /\
    (forall j, (j < 1)%nat ->
       header !! (4 + j)%nat = Some (Text (L_round (j + 1))) /\
       row !! (4 + j)%nat
       = (fun t => Data (CString t)) <$> ["A"; "1500"; "20"; "W2"; "1"] !! (3 + j)%nat) /\
    (forall k, (k < 5)%nat ->
       header !! (4 + 1 + k)%nat
       = [Text L_total; Text L_avg; Text L_expected; Text L_change; Text L_final] !! k /\
       row !! (4 + 1 + k)%nat
       = [ Data (CNumber (totalScore r)); Data (CNumber (avgOpponentRating r));
           Data (CString (expectedScore r)); Data (CString (ratingChange r));
           Data (CNumber (finalRating r)) ] !! k).
Proof.
  apply (full_row_is_aligned 1 (of_Z 1)
           [["A"; "1500"; "20"; "W2"; "1"]; ["B"; "1500"; "20"; "L1"; "0"]] "A" 0
           ["A"; "1500"; "20"; "W2"; "1"]); [reflexivity|simpl; lia].
Defined.

(** X11. The row of a player with at least three fields and fewer than
    [3 + roundCount] is shorter than the header: its final rating stands
    to the left of the column of the final rating, and that column holds
    an empty cell. *)
Theorem short_row_is_shifted (roundCount : nat) (fullMark : number)
    (players : list player_row) (sheetTitle : string) (i : nat)
    (player : player_row) :
  players !! i = Some player ->
  (3 <= length player < 3 + roundCount)%nat ->
  let res := calculateGroup_result roundCount fullMark players sheetTitle in
  let r := compute_row roundCount fullMark players i player in
  exists row,
    wsData res !! (dataStartRowIndex (meta res) + i)%nat = Some row /\
    row !! (5 + length player)%nat = Some (Data (CNumber (finalRating r))) /\
    (5 + length player < mainColCount (meta res) - 1)%nat /\
    row !! (mainColCount (meta res) - 1)%nat = Some blank.
Proof.
  intros Hp Hlen res r.
  exists (padRow (totalCols (meta res)) (map Data (row_cells r))).
  split; [apply wsData_lookup_data, Hp|].
  assert (Htok : length (roundTokens r) = (length player - 3)%nat).
  { subst r. rewrite length_roundTokens. lia. }
  assert (Hmain : mainColCount (meta res) = (9 + roundCount)%nat)
    by apply length_headerRow.
  assert (Htotal : totalCols (meta res) = Nat.max (9 + roundCount) 16)
    by (subst res; unfold calculateGroup_result; cbn [meta totalCols];
        rewrite length_headerRow; reflexivity).
  split; [|split; [lia|]].
  - apply padRow_lookup_lt. change (map ?f ?l) with (f <$> l).
    rewrite list_lookup_fmap.
    replace (5 + length player)%nat
      with (4 + length (roundTokens r) + 4)%nat by lia.
    rewrite row_cells_lookup_tail. reflexivity.
  - apply padRow_lookup_ge. rewrite length_map, length_row_cells. lia.
Qed.

(** X11, on an example: a row of four fields in a tournament of two
    rounds. *)
Lemma short_row_is_shifted_witness :
  let players := [["A"; "1500"; "20"; "W2"]] in
  let res := calculateGroup_result 2 (of_Z 2) players "A" in
  let r := compute_row 2 (of_Z 2) players 0 ["A"; "1500"; "20"; "W2"] in
  exists row,
    wsData res !! (dataStartRowIndex (meta res) + 0)%nat = Some row /\
    row !! 9%nat = Some (Data (CNumber (finalRating r))) /\
    (9 < mainColCount (meta res) - 1)%nat /\
    row !! (mainColCount (meta res) - 1)%nat = Some blank.
Proof.
  apply (short_row_is_shifted 2 (of_Z 2) [["A"; "1500"; "20"; "W2"]] "A" 0
           ["A"; "1500"; "20"; "W2"]); [reflexivity|simpl; lia].
Defined.

(** ** The workbook *)

(** Whatever the base name, [makeUniqueSheetName] ends with a name of at
    most 31 characters that was not in use. *)
Lemma makeUniqueSheetName_fresh (baseName : string) (existing : gset string) :
  Z.of_nat (size existing) < 2 ^ 53 ->
  exists result,
    makeUniqueSheetName baseName existing = Some (result, {[ result ]} ∪ existing) /\
    (result ∉ existing) /\ (String.length result <= 31)%nat.
Proof.
  intros Hsize. unfold makeUniqueSheetName.
  destruct (bool_decide_reflect (slice_to 31 baseName ∈ existing)) as [Hin|Hout].
  - destruct (makeUnique_loop_spec baseName existing (S (size existing)) 2)
      as [[_ Hall]|(j & Hj & Hsome & Hfresh & _)].
    { exfalso. exact (candidates_not_all_used baseName existing 2%N Hall). }
    exists (candidate baseName j). split; [exact Hsome|]. split; [exact Hfresh|].
    apply length_candidate.
    assert (2 ^ 53 + 2 < 10 ^ 30)%N by (vm_compute; reflexivity). lia.
  - exists (slice_to 31 baseName). split; [reflexivity|]. split; [exact Hout|].
    apply length_slice_to.
Qed.

Lemma calculate_loop_spec (roundCount : nat) (fullMark : number)
    (groups : list group) (used : gset string) :
  Z.of_nat (size used) + Z.of_nat (length groups) < 2 ^ 53 ->
  let with_players :=
    List.filter (fun g => match players g with [] => false | _ => true end) groups in
  let result g := calculateGroup_result roundCount fullMark (players g) (sheetBase g) in
  exists sheets,
    calculate_loop roundCount fullMark groups used
    = Some (sheets, concat (map (fun g => groupUpdateLines (result g)) with_players)) /\
    NoDup sheets.*1 /\
    Forall (fun n => (n ∉ used) /\ (String.length n <= 31)%nat) sheets.*1 /\
    sheets.*2 = map (fun g => wsData (result g)) with_players.
Proof.
  revert used. induction groups as [|g rest IH]; intros used Hsize wp result.
  - exists []. cbn. repeat apply conj; constructor.
  - subst wp. cbn [calculate_loop List.filter length] in *.
    destruct (players g) as [|p ps] eqn:Hg.
    + apply IH. lia.
    + destruct (makeUniqueSheetName_fresh (sheetBase g) used) as (n & Hn & Hfresh & Hlen);
        [lia|].
      rewrite Hn.
      assert (Hsz : size ({[ n ]} ∪ used) = S (size used)).
      { rewrite size_union by set_solver. rewrite size_singleton. reflexivity. }
      destruct (IH ({[ n ]} ∪ used)) as (sheets & Hloop & Hnd & Hall & Hdata);
        [rewrite Hsz; lia|].
      rewrite Hloop.
      exists ((n, wsData (calculateGroup_result roundCount fullMark (p :: ps) (sheetBase g)))
              :: sheets).
      cbn [map concat fmap list_fmap fst snd]. subst result. cbn beta. rewrite !Hg.
      split; [reflexivity|]. split; [|split].
      * apply NoDup_cons. split; [|exact Hnd].
        intros Hin. pose proof (proj1 (Forall_forall _ _) Hall _ Hin) as [Hin' _].
        apply Hin', elem_of_union_l, elem_of_singleton. reflexivity.
      * constructor; [split; assumption|].
        eapply Forall_impl; [exact Hall|]. intros x [Hx Hl]. split; [set_solver|exact Hl].
      * f_equal. exact Hdata.
Qed.

Lemma calculate_unfold (roundCount : nat) (fullMark : number)
    (groups : list group) :
  groups <> [] ->
  calculate roundCount fullMark groups
  = match calculate_loop roundCount fullMark groups ∅ with
    | Some ([], _) => Some AlertNoRows
    | Some (sheets, lines) =>
        Some (Export sheets
                (match lines with
                 | [] => None
                 | _ => Some (join (String char_lf "") lines)
                 end))
    | None => None
    end.
Proof. destruct groups; [congruence|reflexivity]. Qed.

(** X12. [calculate] always comes to an end, with the first alert when
    no group was imported and with the second when no group has a
    player. In every other case it exports the workbook and, with it,
    the update text: one sheet for each group that has players, in the
    order of the groups, under names of at most 31 characters that
    differ from one another; one update line for each player of these
    groups. *)
Theorem calculate_exports (roundCount : nat) (fullMark : number)
    (groups : list group) :
  Z.of_nat (length groups) < 2 ^ 53 ->
  let with_players :=
    List.filter (fun g => match players g with [] => false | _ => true end) groups in
  let result g := calculateGroup_result roundCount fullMark (players g) (sheetBase g) in
  exists o,
    calculate roundCount fullMark groups = Some o /\
    match o with
    | AlertNoGroups => groups = []
    | AlertNoRows => groups <> [] /\ with_players = []
    | Export sheets updateText =>
        with_players <> [] /\
        NoDup sheets.*1 /\
        Forall (fun n => (String.length n <= 31)%nat) sheets.*1 /\
        sheets.*2 = map (fun g => wsData (result g)) with_players /\
        exists lines,
          updateText = Some (join (String char_lf "") lines) /\
          lines = concat (map (fun g => groupUpdateLines (result g)) with_players) /\
          length lines = length (concat (map players with_players)) /\
          lines <> []
    end.
Proof.
  intros Hsize wp result.
  destruct (decide (groups = [])) as [->|Hgroups];
    [exists AlertNoGroups; split; reflexivity|].
  rewrite calculate_unfold by exact Hgroups.
  destruct (calculate_loop_spec roundCount fullMark groups ∅)
    as (sheets & Hloop & Hnd & Hall & Hdata);
    [rewrite size_empty; lia|].
  fold wp in Hloop, Hdata. fold result in Hloop, Hdata. rewrite Hloop.
  assert (Hwp : Forall (fun g => players g <> []) wp).
  { apply List.Forall_forall. intros g Hg. subst wp. apply filter_In in Hg as [_ Hg].
    destruct (players g); [discriminate|]. discriminate. }
  assert (Hlen : length (concat (map (fun g => groupUpdateLines (result g)) wp))
                 = length (concat (map players wp))).
  { clear -result. induction wp as [|g l IH]; [reflexivity|].
    cbn [map concat]. rewrite !length_app, IH. f_equal.
    subst result. cbn beta. apply length_groupUpdateLines. }
  destruct sheets as [|sh sheets].
  - exists AlertNoRows. split; [reflexivity|].
    split; [exact Hgroups|].
    destruct wp; [reflexivity|discriminate].
  - destruct wp as [|g l] eqn:Ewp; [discriminate|]. rewrite <- Ewp in *.
    assert (Hne : concat (map (fun g => groupUpdateLines (result g)) wp) <> []).
    { intros E. rewrite E in Hlen. rewrite Ewp in Hlen, Hwp.
      inversion Hwp as [|? ? Hg _]; subst.
      cbn [map concat] in Hlen. rewrite length_app in Hlen.
      destruct (players g); [congruence|]. cbn in Hlen. lia. }
    subst result. cbn beta in *.
    match goal with
    | |- context [join _ ?l] => destruct l as [|u us] eqn:Elines; [congruence|]
    end.
    eexists. split; [reflexivity|].
    split; [rewrite Ewp; discriminate|]. split; [exact Hnd|].
    split; [eapply Forall_impl; [exact Hall|]; intros x [_ Hx]; exact Hx|].
    split; [exact Hdata|].
    exists (u :: us). repeat apply conj; try reflexivity; [exact Hlen|discriminate].
Qed.

(** X12, on an example: three imported files, of which the second holds
    no valid row. *)
Lemma calculate_exports_witness :
  let groups :=
    [ import_group "A.txt" ("Al,1500,20,W2,1" +:+ String char_lf "Bo,1500,20,L1,0");
      import_group "A.csv" "no rows";
      import_group "A" "Cy,1400,30,,0" ] in
  let with_players :=
    List.filter (fun g => match players g with [] => false | _ => true end) groups in
  let result g := calculateGroup_result 1 (of_Z 1) (players g) (sheetBase g) in
  exists o,
    calculate 1 (of_Z 1) groups = Some o /\
    match o with
    | AlertNoGroups => groups = []
    | AlertNoRows => groups <> [] /\ with_players = []
    | Export sheets updateText =>
        with_players <> [] /\
        NoDup sheets.*1 /\
        Forall (fun n => (String.length n <= 31)%nat) sheets.*1 /\
        sheets.*2 = map (fun g => wsData (result g)) with_players /\
        exists lines,
          updateText = Some (join (String char_lf "") lines) /\
          lines = concat (map (fun g => groupUpdateLines (result g)) with_players) /\
          length lines = length (concat (map players with_players)) /\
          lines <> []
    end.
Proof.
  apply (calculate_exports 1 (of_Z 1)
    [ import_group "A.txt" ("Al,1500,20,W2,1" +:+ String char_lf "Bo,1500,20,L1,0");
      import_group "A.csv" "no rows";
      import_group "A" "Cy,1400,30,,0" ]).
  reflexivity.
Defined.

(** ** The update text *)

Lemma is_digit_no_separator (c : ascii) :
  is_digit c = true -> negb (Ascii.eqb c ",") && negb (is_ws c) = true.
Proof. destruct c as [[] [] [] [] [] [] [] []]; try discriminate; reflexivity. Qed.

Lemma no_separator_digits (s : string) :
  all_digits s = true -> no_separator s = true.
Proof.
  unfold no_separator. induction s as [|c r IH]; [reflexivity|].
  cbn [all_digits all_chars]. rewrite !andb_true_iff. intros [Hc Hr].
  split; [apply andb_true_iff, is_digit_no_separator, Hc|apply IH, Hr].
Qed.

Lemma all_chars_slice_from (p : ascii -> bool) (n : nat) (s : string) :
  all_chars p s = true -> all_chars p (slice_from n s) = true.
Proof.
  revert s. induction n as [|n IH]; intros [|c r]; try tauto.
  cbn [all_chars slice_from]. rewrite andb_true_iff. intros [_ Hr]. auto.
Qed.

Lemma all_chars_strip_zeros_end (p : ascii -> bool) (s : string) :
  all_chars p s = true -> all_chars p (strip_zeros_end s) = true.
Proof.
  induction s as [|c s IH]; [reflexivity|].
  cbn [all_chars strip_zeros_end]. rewrite andb_true_iff. intros [Hc Hs].
  specialize (IH Hs). destruct (strip_zeros_end s) as [|c' r'].
  - destruct (Ascii.eqb c "0"); [reflexivity|]. cbn [all_chars]. rewrite Hc. reflexivity.
  - cbn [all_chars] in *. rewrite Hc. exact IH.
Qed.

Lemma all_chars_zeros (p : ascii -> bool) (n : nat) :
  p "0"%char = true -> all_chars p (zeros n) = true.
Proof.
  intros Hp. unfold zeros. induction n as [|n IH]; [reflexivity|].
  cbn [repeat string_of_list_ascii all_chars]. rewrite Hp. exact IH.
Qed.

Lemma no_separator_format_decimal (d : string) (n : Z) :
  no_separator d = true -> no_separator (format_decimal d n) = true.
Proof.
  unfold no_separator. intros Hd. unfold format_decimal.
  pose proof (all_chars_zeros (fun c => negb (Ascii.eqb c ",") && negb (is_ws c))) as Hz.
  pose proof (no_separator_digits
                (N_to_string (Z.to_N (Z.abs (n - 1))))
                (proj1 (N_to_string_spec _))) as He.
  unfold no_separator in He.
  repeat match goal with
         | |- context [if ?b then _ else _] => destruct b
         end;
    rewrite ?all_chars_app, ?Hd, ?Hz, ?He, ?all_chars_slice_to, ?all_chars_slice_from
      by (exact Hd || reflexivity);
    reflexivity.
Qed.

(** The text of a number holds no comma and no white space. *)
Lemma no_separator_Number_toString (x : number) :
  no_separator (Number_toString x) = true.
Proof.
  destruct x as [s|s| |s m e]; try (destruct s; reflexivity); [reflexivity|].
  unfold Number_toString, shortest_decimal.
  destruct (shortest_digits _ _ _ _ _ _) as [d k].
  unfold no_separator. rewrite all_chars_app.
  apply andb_true_iff. split; [destruct s; reflexivity|].
  apply no_separator_format_decimal, all_chars_strip_zeros_end.
  apply no_separator_digits, N_to_string_spec.
Qed.

Lemma no_separator_lacks (x : ascii) (s : string) :
  Ascii.eqb x "," || is_ws x = true -> no_separator s = true -> lacks x s = true.
Proof.
  intros Hx. apply all_chars_impl. intros c Hc.
  destruct (Ascii.eqb_spec c x) as [->|_]; [|reflexivity].
  apply andb_true_iff in Hc as [H1 H2].
  destruct (Ascii.eqb x ","); [discriminate|].
  destruct (is_ws x); discriminate.
Qed.

Lemma lacks_app (x : ascii) (s t : string) :
  lacks x (s +:+ t) = lacks x s && lacks x t.
Proof. apply all_chars_app. Qed.

Lemma no_separator_trim_end (s : string) :
  no_separator s = true -> trim_end s = s.
Proof.
  unfold no_separator. induction s as [|c r IH]; [reflexivity|].
  cbn [all_chars]. rewrite !andb_true_iff. intros [[_ Hc] Hr].
  rewrite trim_end_cons by (destruct (is_ws c); [discriminate|reflexivity]).
  rewrite IH by exact Hr. reflexivity.
Qed.

Lemma no_separator_trim (s : string) : no_separator s = true -> trim s = s.
Proof.
  intros H. apply no_ws_trim. revert H. apply all_chars_impl.
  intros c Hc. apply andb_true_iff in Hc. tauto.
Qed.

Lemma trim_fixed_start (a : string) : trim a = a -> trim_start a = a.
Proof. intros H. rewrite <- H. apply trim_start_trim. Qed.

Lemma trim_start_app (a b : string) :
  trim_start a = a -> a <> EmptyString -> trim_start (a +:+ b) = a +:+ b.
Proof.
  destruct a as [|c r]; [congruence|]. intros H _.
  apply trim_start_head in H. rewrite append_cons. cbn [trim_start].
  rewrite H. reflexivity.
Qed.

(** A line [name,oldRank,newRank] is read back as the pair of [name] and
    [newRank]. *)
Lemma parse_update_line_fields (a b c : string) :
  trim a = a -> lacks char_comma a = true ->
  no_separator b = true -> no_separator c = true ->
  parse_update_line (a +:+ "," +:+ b +:+ "," +:+ c) = Some (a, c).
Proof.
  intros Ha Hca Hb Hc.
  change (a +:+ "," +:+ b +:+ "," +:+ c)
    with (a +:+ String char_comma (b +:+ String char_comma c)).
  assert (Hend : trim_end (String char_comma (b +:+ String char_comma c))
                 = String char_comma (b +:+ String char_comma c)).
  { rewrite trim_end_cons by reflexivity. f_equal. apply trim_end_app; [|discriminate].
    rewrite trim_end_cons by reflexivity. f_equal. apply no_separator_trim_end, Hc. }
  assert (Htrim : trim (a +:+ String char_comma (b +:+ String char_comma c))
                  = a +:+ String char_comma (b +:+ String char_comma c)).
  { unfold trim. destruct a as [|x r].
    - rewrite append_nil. cbn [trim_start]. change (is_ws char_comma) with false.
      cbn iota. exact Hend.
    - rewrite trim_start_app by (apply trim_fixed_start, Ha || discriminate).
      apply trim_end_app; [exact Hend|discriminate]. }
  unfold parse_update_line. rewrite Htrim, !split_on_app.
  rewrite (split_on_lacks _ a) by exact Hca.
  rewrite (split_on_lacks _ b) by (apply no_separator_lacks; [reflexivity|exact Hb]).
  rewrite (split_on_lacks _ c) by (apply no_separator_lacks; [reflexivity|exact Hc]).
  cbn [app lookup list_lookup]. rewrite Ha, (no_separator_trim c Hc). reflexivity.
Qed.

Lemma split_join_lines (lines : list string) :
  Forall (fun l => lacks char_lf l = true /\ l <> EmptyString) lines ->
  List.filter nonempty (split_on char_lf (join (String char_lf "") lines)) = lines.
Proof.
  induction lines as [|a rest IH]; [reflexivity|].
  intros H. inversion H as [|? ? [Ha Hne] Hrest]; subst. specialize (IH Hrest).
  assert (Hfa : List.filter nonempty [a] = [a])
    by (destruct a; [congruence|reflexivity]).
  destruct rest as [|b r].
  - cbn [join]. rewrite split_on_lacks by exact Ha. exact Hfa.
  - change (join (String char_lf "") (a :: b :: r))
      with (a +:+ String char_lf (join (String char_lf "") (b :: r))).
    rewrite split_on_app, List.filter_app, IH, split_on_lacks by exact Ha.
    rewrite Hfa. reflexivity.
Qed.

Lemma mapM_map_Some {A B C : Type} (f : B -> option C) (h : A -> B) (g : A -> C)
    (l : list A) :
  Forall (fun x => f (h x) = Some (g x)) l -> mapM f (map h l) = Some (map g l).
Proof.
  induction 1 as [|x l Hx _ IH]; [reflexivity|].
  cbn [map mapM]. rewrite Hx, IH. reflexivity.
Qed.

Lemma update_line_row (r : computed_row) (n : string) :
  name r = Some n ->
  update_line (row_cells r)
  = n +:+ "," +:+ Number_toString (rating r) +:+ "," +:+ Number_toString (finalRating r).
Proof.
  intros Hn. unfold update_line. rewrite length_row_cells.
  replace (9 + length (roundTokens r) - 1)%nat
    with (4 + length (roundTokens r) + 4)%nat by lia.
  rewrite row_cells_lookup_tail.
  unfold row_cells. cbn [app lookup list_lookup]. rewrite Hn. reflexivity.
Qed.

(** What the update tool needs of a computed row: a name that is trimmed
    and holds no comma and no line feed. *)
Lemma imported_rows_named (roundCount : nat) (fullMark : number) (text : string) :
  Forall (fun r => exists n, name r = Some n /\ trim n = n /\
                     lacks char_comma n = true /\ lacks char_lf n = true)
         (calculateGroup roundCount fullMark (parsePlayersFromText text)).
Proof.
  apply Forall_lookup. intros i r Hr.
  apply calculateGroup_lookup in Hr as (player & Hp & ->).
  assert (Hin : In player (parsePlayersFromText text))
    by (apply list_elem_of_In; eapply list_elem_of_lookup_2, Hp).
  pose proof (parsePlayersFromText_In _ _ Hin) as Hvalid.
  apply isValidPlayerRow_spec in Hvalid as (Hlen & _).
  pose proof (parsed_row_fields text player Hin) as Hfields.
  unfold player_row in *.
  destruct (lookup_lt_is_Some_2 player 0%nat) as [n Hn]; [lia|].
  exists n. split.
  - unfold compute_row. destruct (opponent_totals _ _ _). exact Hn.
  - rewrite List.Forall_forall in Hfields.
    destruct (Hfields n) as (H1 & H2 & H3 & _);
      [apply list_elem_of_In; eapply list_elem_of_lookup_2, Hn|]. auto.
Qed.

Lemma update_lines_read_back (rows : list computed_row) :
  Forall (fun r => exists n, name r = Some n /\ trim n = n /\
                     lacks char_comma n = true /\ lacks char_lf n = true) rows ->
  parse_update_text
    (join (String char_lf "") (map (fun r => update_line (row_cells r)) rows))
  = Some (map (fun r => (ToString (name r), Number_toString (finalRating r))) rows).
Proof.
  intros Hrows. unfold parse_update_text. rewrite split_join_lines.
  - apply mapM_map_Some. eapply Forall_impl; [exact Hrows|].
    intros r (n & Hn & Ht & Hc & _). cbn beta.
    rewrite (update_line_row r n Hn), Hn. cbn [ToString].
    apply parse_update_line_fields; auto using no_separator_Number_toString.
  - apply Forall_map. eapply Forall_impl; [exact Hrows|].
    intros r (n & Hn & _ & _ & Hlf). cbn beta.
    rewrite (update_line_row r n Hn). split.
    + rewrite !lacks_app, Hlf.
      rewrite !(no_separator_lacks char_lf _ eq_refl (no_separator_Number_toString _)).
      reflexivity.
    + destruct n; discriminate.
Qed.

Lemma calculate_loop_lines (roundCount : nat) (fullMark : number)
    (groups : list group) (used : gset string) sheets lines :
  calculate_loop roundCount fullMark groups used = Some (sheets, lines) ->
  lines = map (fun r => update_line (row_cells r))
              (concat (map (fun g => calculateGroup roundCount fullMark (players g))
                           groups)).
Proof.
  revert used sheets lines. induction groups as [|g rest IH]; intros used sheets lines.
  - cbn. intros [= <- <-]. reflexivity.
  - cbn [calculate_loop map concat]. rewrite map_app.
    destruct (players g) as [|p ps] eqn:Hg.
    + intros H. apply IH in H. exact H.
    + destruct (makeUniqueSheetName _ _) as [[n used']|]; [|discriminate].
      destruct (calculate_loop _ _ rest used') as [[sheets' lines']|] eqn:Hrest;
        [|discriminate].
      intros [= <- <-]. apply IH in Hrest. rewrite Hrest. reflexivity.
Qed.

(** X13. The update text that [calculate] exports for imported files is
    read back by the update tool without loss: one pair for each player
    of each file, in order, of the name and the text of the final
    rating. *)
Theorem exported_update_text_is_read_back (roundCount : nat) (fullMark : number)
    (files : list (string * string)) sheets (updateText : string) :
  calculate roundCount fullMark (map (fun f => import_group f.1 f.2) files)
  = Some (Export sheets (Some updateText)) ->
  parse_update_text updateText
  = Some (map (fun r => (ToString (name r), Number_toString (finalRating r)))
              (concat (map (fun f => calculateGroup roundCount fullMark
                                       (parsePlayersFromText f.2)) files))).
Proof.
  intros Hcalc.
  assert (Hne : map (fun f => import_group f.1 f.2) files <> [])
    by (intros E; rewrite E in Hcalc; discriminate).
  rewrite calculate_unfold in Hcalc by exact Hne.
  destruct (calculate_loop _ _ _ _) as [[sheets' lines]|] eqn:Hloop; [|discriminate].
  apply calculate_loop_lines in Hloop.
  assert (Htxt : updateText = join (String char_lf "") lines).
  { destruct sheets'; [discriminate|]. destruct lines; [discriminate|].
    injection Hcalc as _ <-. reflexivity. }
  rewrite map_map in Hloop. cbn [players import_group] in Hloop.
  rewrite Htxt, Hloop. apply update_lines_read_back.
  apply Forall_concat, Forall_map, List.Forall_forall. intros f _.
  apply imported_rows_named.
Qed.

(** X13, on an example: two files; the second holds a player of its own. *)
Lemma exported_update_text_is_read_back_witness :
  parse_update_text
    ("Al,1500,1510" +:+ String char_lf ("Bo,1500,1490" +:+ String char_lf "Cy,1400,1370"))
  = Some [("Al", "1510"); ("Bo", "1490"); ("Cy", "1370")].
Proof.
  eapply (exported_update_text_is_read_back 1 (of_Z 1)
            [ ("A.txt", "Al,1500,20,W2,1" +:+ String char_lf "Bo,1500,20,L1,0");
              ("B.txt", "Cy,1400,30,,0") ]).
  vm_compute. reflexivity.
Defined.

(** X14. A line of the update text that is not empty and holds no comma
    makes the update tool throw, so that no pair at all is read: a line
    of white space, for one, such as the carriage return left of an
    empty line in a file with CRLF line ends. *)
Theorem update_line_without_comma_throws (text line : string) :
  In line (split_on char_lf text) ->
  line <> EmptyString ->
  lacks char_comma line = true ->
  parse_update_text text = None.
Proof.
  intros Hin Hne Hc. unfold parse_update_text.
  destruct (mapM parse_update_line _) as [k|] eqn:E; [|reflexivity].
  exfalso.
  assert (Hsome : is_Some (mapM parse_update_line
                     (List.filter nonempty (split_on char_lf text))))
    by (rewrite E; eexists; reflexivity).
  apply mapM_is_Some_1 in Hsome. rewrite Forall_forall in Hsome.
  destruct (Hsome line) as [y Hy].
  { apply list_elem_of_In, filter_In. split; [exact Hin|].
    destruct line; [congruence|reflexivity]. }
  cbn in Hy. unfold parse_update_line in Hy.
  rewrite split_on_lacks in Hy by (apply all_chars_trim, Hc).
  discriminate.
Qed.

(** X14, on an example: two update lines with an empty line between
    them, CRLF line ends. *)
Lemma update_line_without_comma_throws_witness :
  parse_update_text
    ("Al,1500,1510" +:+ String char_cr (String char_lf
       (String char_cr (String char_lf "Bo,1500,1490")))) = None.
Proof.
  apply (update_line_without_comma_throws _ (String char_cr "")).
  - right. left. reflexivity.
  - discriminate.
  - reflexivity.
Defined.

(** ** What a row is computed from *)

Lemma fold_left_ext_In {A B : Type} (f g : A -> B -> A) (l : list B) (s : A) :
  (forall x, In x l -> forall a, f a x = g a x) ->
  fold_left f l s = fold_left g l s.
Proof.
  revert s. induction l as [|x l IH]; intros s H; [reflexivity|].
  cbn [fold_left]. rewrite (H x (or_introl eq_refl)).
  apply IH. intros y Hy. apply H. right. exact Hy.
Qed.

(** X15. The numbers computed for a player depend on the row of the
    player through the rating, the K-factor, the score and the opponent
    ids of the round tokens only: neither the name nor the result
    letters nor anything else in a token has a part in them. *)
Theorem results_depend_on_ids_only (roundCount : nat) (fullMark : number)
    (players : list player_row) (index : nat) (p q : player_row) :
  p !! 1%nat = q !! 1%nat ->
  p !! 2%nat = q !! 2%nat ->
  p !! (3 + roundCount)%nat = q !! (3 + roundCount)%nat ->
  (forall j, (j < roundCount)%nat ->
     opponentId (parseOpponentToken (p !! (3 + j)%nat))
     = opponentId (parseOpponentToken (q !! (3 + j)%nat))) ->
  let r := compute_row roundCount fullMark players index p in
  let r' := compute_row roundCount fullMark players index q in
  rating r = rating r' /\ kFactor r = kFactor r' /\
  totalScore r = totalScore r' /\ avgOpponentRating r = avgOpponentRating r' /\
  expectedScore r = expectedScore r' /\ ratingChange r = ratingChange r' /\
  finalRating r = finalRating r'.
Proof.
  intros H1 H2 H3 Hid r r'. subst r r'.
  assert (Ht : opponent_totals roundCount players p
               = opponent_totals roundCount players q).
  { unfold opponent_totals. apply fold_left_ext_In.
    intros j Hj [total empty]. apply in_seq in Hj.
    unfold round_step. rewrite (Hid j) by lia. reflexivity. }
  unfold compute_row. rewrite <- Ht, <- H1, <- H2, <- H3.
  destruct (opponent_totals roundCount players p) as [total empty].
  cbn [rating kFactor totalScore avgOpponentRating expectedScore ratingChange
       finalRating].
  repeat apply conj; reflexivity.
Qed.

(** X15, on an example: a win against player 2 and a loss against player
    2, under two names. *)
Lemma results_depend_on_ids_only_witness :
  let players := [["A"; "1500"; "20"; "W2"; "1"]; ["B"; "1400"; "20"; "L1"; "0"]] in
  let r := compute_row 1 (of_Z 1) players 0 ["A"; "1500"; "20"; "W2"; "1"] in
  let r' := compute_row 1 (of_Z 1) players 0 ["Z"; "1500"; "20"; "l2 x"; "1"] in
  rating r = rating r' /\ kFactor r = kFactor r' /\
  totalScore r = totalScore r' /\ avgOpponentRating r = avgOpponentRating r' /\
  expectedScore r = expectedScore r' /\ ratingChange r = ratingChange r' /\
  finalRating r = finalRating r'.
Proof.
  apply (results_depend_on_ids_only 1 (of_Z 1)
           [["A"; "1500"; "20"; "W2"; "1"]; ["B"; "1400"; "20"; "L1"; "0"]] 0
           ["A"; "1500"; "20"; "W2"; "1"] ["Z"; "1500"; "20"; "l2 x"; "1"]);
    try reflexivity.
  intros j Hj. destruct j as [|j]; [reflexivity|lia].
Defined.

(** ** Column widths *)

Lemma array_set_end {A : Type} (v : A) (arr : list (option A)) (i : nat) :
  i = length arr -> array_set i v arr = (arr ++ [Some v])%list.
Proof.
  intros ->. unfold array_set. rewrite Nat.ltb_irrefl, Nat.sub_diag. reflexivity.
Qed.

Lemma array_set_inside {A : Type} (v : A) (arr : list (option A)) (i : nat) :
  (i < length arr)%nat -> array_set i v arr = <[i := Some v]> arr.
Proof.
  intros H. unfold array_set. apply Nat.ltb_lt in H. rewrite H. reflexivity.
Qed.

Lemma fold_array_set_run {A : Type} (v : A) (k n a : nat) (arr : list (option A)) :
  length arr = (k + a)%nat ->
  fold_left (fun cols i => array_set (k + i) v cols) (seq a n) arr
  = (arr ++ replicate n (Some v))%list.
Proof.
  revert a arr. induction n as [|n IH]; intros a arr Hlen.
  - cbn. rewrite app_nil_r. reflexivity.
  - cbn [seq fold_left]. rewrite array_set_end by lia.
    rewrite IH by (rewrite length_app; cbn [length]; lia).
    rewrite <- app_assoc. reflexivity.
Qed.

(** The array of widths in closed form, for a sheet of at least 16 columns
    that holds the main table. *)
Lemma column_widths_eq (roundCount totalCols : nat) :
  (9 + roundCount <= totalCols)%nat -> (16 <= totalCols)%nat ->
  column_widths roundCount totalCols
  = <[15%nat := Some 6%N]> (<[14%nat := Some 12%N]>
      ([Some 6; Some 12; Some 8; Some 6]%N
       ++ replicate roundCount (Some 6%N)
       ++ [Some 8; Some 14; Some 8; Some 8; Some 10]%N
       ++ replicate (totalCols - (9 + roundCount)) (Some 12%N)))%list.
Proof.
  intros Hmain H16. unfold column_widths.
  change (array_set 3 6%N (array_set 2 8%N (array_set 1 12%N (array_set 0 6%N []))))
    with [Some 6; Some 12; Some 8; Some 6]%N.
  rewrite (fold_array_set_run 6%N 4 roundCount 0) by reflexivity.
  set (c1 := ([Some 6; Some 12; Some 8; Some 6]%N ++ replicate roundCount (Some 6%N))%list).
  assert (H1 : length c1 = (4 + roundCount)%nat)
    by (unfold c1; rewrite length_app, length_replicate; reflexivity).
  rewrite (array_set_end 8%N c1) by lia.
  repeat match goal with
         | |- context [array_set ?i ?v (?a ++ ?b)%list] =>
             rewrite (array_set_end v (a ++ b)%list i)
               by (rewrite !length_app; cbn [length]; lia)
         end.
  set (c2 := (((((c1 ++ [Some 8%N]) ++ [Some 14%N]) ++ [Some 8%N]) ++ [Some 8%N])
              ++ [Some 10%N])%list).
  assert (H2 : length c2 = (9 + roundCount)%nat)
    by (unfold c2; rewrite !length_app; cbn [length]; lia).
  rewrite H2.
  rewrite (fold_array_set_run 12%N 0 (totalCols - (9 + roundCount)) (9 + roundCount))
    by (rewrite H2; reflexivity).
  set (c3 := (c2 ++ replicate (totalCols - (9 + roundCount)) (Some 12%N))%list).
  assert (H3 : length c3 = totalCols)
    by (unfold c3; rewrite length_app, length_replicate; lia).
  rewrite (array_set_inside 12%N c3) by lia.
  rewrite (array_set_inside 6%N) by (rewrite length_insert; lia).
  do 2 f_equal. unfold c3, c2, c1. rewrite <- !app_assoc. reflexivity.
Qed.

(** X16. For the sheet of a group, the array of widths has one entry for
    each column and no hole. Columns 14 and 15, those of the K-table,
    are 12 and 6 wide whatever the number of rounds, also when they
    belong to the main table. *)
Theorem column_widths_complete (roundCount : nat) :
  let cols := column_widths roundCount (Nat.max (9 + roundCount) 16) in
  length cols = Nat.max (9 + roundCount) 16 /\
  Forall is_Some cols /\
  cols !! 14%nat = Some (Some 12%N) /\
  cols !! 15%nat = Some (Some 6%N).
Proof.
  intros cols. subst cols. rewrite column_widths_eq by lia.
  set (l := ([Some 6; Some 12; Some 8; Some 6]%N ++ _)%list).
  assert (Hl : length l = Nat.max (9 + roundCount) 16).
  { unfold l. rewrite !length_app, !length_replicate. cbn [length]. lia. }
  assert (Hs : Forall is_Some l).
  { unfold l. repeat (apply Forall_app; split);
      try (apply Forall_replicate; eexists; reflexivity);
      repeat constructor; eexists; reflexivity. }
  repeat apply conj.
  - rewrite !length_insert. exact Hl.
  - apply Forall_insert; [apply Forall_insert|]; [exact Hs|eexists; reflexivity..].
  - rewrite list_lookup_insert_ne by lia.
    apply list_lookup_insert_eq. lia.
  - apply list_lookup_insert_eq. rewrite length_insert. lia.
Qed.

(** ** The table of expected scores *)

Lemma breakpoints_rising :
  forallb (fun p => lt p.1.2 p.2.2)
          (zip (breakpoints zero) (tail (breakpoints zero))) = true.
Proof. vm_compute. reflexivity. Qed.

Lemma breakpoints_falling :
  forallb (fun p => lt p.2.2 p.1.2)
          (zip (breakpoints (of_Z (-1))) (tail (breakpoints (of_Z (-1))))) = true.
Proof. vm_compute. reflexivity. Qed.

(** X17. From one band of the table to the next, the fraction of the
    full mark rises when the player is rated at or above the opponents
    and falls when the player is rated below them. *)
Theorem expected_fraction_monotone (diff : number) (i : nat)
    (b1 b2 : Z * Z * number) :
  breakpoints diff !! i = Some b1 ->
  breakpoints diff !! S i = Some b2 ->
  if ge diff zero then lt b1.2 b2.2 = true else lt b2.2 b1.2 = true.
Proof.
  intros H1 H2. rewrite <- lookup_tail in H2.
  destruct (ge diff zero) eqn:Hd.
  - rewrite (breakpoints_ge0 _ Hd) in H1, H2.
    exact (forallb_zip_lookup (fun a b => lt a.2 b.2) _ _ i b1 b2
             breakpoints_rising H1 H2).
  - rewrite (breakpoints_lt0 _ Hd) in H1, H2.
    exact (forallb_zip_lookup (fun a b => lt b.2 a.2) _ _ i b1 b2
             breakpoints_falling H1 H2).
Qed.

(** X17, on an example: the first two bands for a player rated above the
    opponents: 0.5 and 0.51. *)
Lemma expected_fraction_monotone_witness :
  lt (of_decimal false 5 (-1)) (of_decimal false 51 (-2)) = true.
Proof.
  exact (expected_fraction_monotone (of_Z 5) 0
           (0, 3, of_decimal false 5 (-1)) (4, 10, of_decimal false 51 (-2))
           eq_refl eq_refl).
Defined.
